(** * session-samples / ai_search: ingestion pipeline and permission-aware search

  A shallow embedding of the Python sources
    02_Upload_PDF_Images/embedding_generator.py
    03_Upload_PDF_Permissions/entraid_auth.py
    03_Upload_PDF_Permissions/secure_search.py
    03_Upload_PDF_Permissions/search_uploader.py
  and the properties the specification states about them.

  Conventions.  A Python exception, an instance of [Exception], is a value
  of [exn]; a call that can raise returns [exn + A] ([inl] raises, [inr]
  returns).  The coroutines of the embedding client can also be ended by
  [asyncio.CancelledError], which is no [Exception]: they return
  [raised + A].  A [str] is a string of characters, each a code point up to
  U+00FF; texts with code points beyond that are outside the model, and
  [String.length] is Python's [len].  The outside world
  (HTTP endpoints, the identity graph, the search index, the wall clock) is
  an oracle record passed to the code; everything the code does with the
  answers is written out.  [async]/[await] is sequential composition: the
  properties below are about one call at a time. *)

From Stdlib Require Import ZArith Ascii String List Lia PrimFloat.
From stdpp Require Import gmap strings list fin_maps pretty.

Open Scope string_scope.

(** ** Python runtime glue *)

Module Py.

(** Classes of the [Exception] instances the sources meet: the ones their
    [except] clauses tell apart, and the ones the interpreter raises. *)
Inductive exn_class :=
| ClientError | HttpResponseError | KeyError | IndexError | AttributeError | OtherException.

Record exn := Raise { exn_cls : exn_class; exn_msg : string }.

(** [str(e)] *)
Definition str (e : exn) : string := exn_msg e.

(** [raise Exception(msg)] *)
Definition Exception (msg : string) : exn := Raise OtherException msg.

Definition is_client_error (e : exn) : bool :=
  match exn_cls e with ClientError => true | _ => false end.

(** [str.isspace] on one character: the whitespace code points up to
    U+00FF are U+0009..U+000D, U+001C..U+0020, U+0085 and U+00A0. *)
Definition isspace (c : ascii) : bool :=
  let n := nat_of_ascii c in
  ((9 <=? n)%nat && (n <=? 13)%nat) || ((28 <=? n)%nat && (n <=? 32)%nat)
  || (n =? 133)%nat || (n =? 160)%nat.

Fixpoint lstrip (s : string) : string :=
  match s with
  | String c s' => if isspace c then lstrip s' else s
  | EmptyString => EmptyString
  end.

Definition rstrip (s : string) : string :=
  String.rev (lstrip (String.rev s)).

(** [s.strip()] *)
Definition strip (s : string) : string := rstrip (lstrip s).

(** [sep.join(parts)] *)
Definition join (sep : string) (parts : list string) : string :=
  String.concat sep parts.

(** Objects read through [getattr(o, name, default)]: the two attributes
    [_execute_embedding_tasks] asks for. *)
Class HasAttrs (A : Type) := {
  getattr_id : A -> option string;
  getattr_image_id : A -> option string
}.

End Py.

Import Py.

(** ** 02_Upload_PDF_Images/embedding_generator.py *)

Module EmbeddingGen.

(** A component of a decoded JSON array: [int], [float], or anything else. *)
Inductive pyvalue := PyInt (z : Z) | PyFloat (f : float) | PyNonNumber.

(** [@dataclass EmbeddingResult] *)
Record EmbeddingResult := mkResult {
  chunk_id : string;
  embedding : list pyvalue;
  success : bool;
  content_type : string;
  error : option string
}.

(** pdf_processor.DocumentChunk; [created_at] kept as an opaque stamp. *)
Record DocumentChunk := {
  id : string;
  title : string;
  content : string;
  headline : string;
  file_name : string;
  page_number : Z;
  chunk_index : Z;
  created_at : Z;
  token_count : Z;
  chunk_content_type : string
}.

(** image_analyzer.ImageAnalysis; the fields the generator reads, and the
    rest as stamps. *)
Record ImageAnalysis := {
  image_id : string;
  description : string;
  extracted_text : string;
  objects_detected : list string;
  image_path : string;
  pdf_source : string;
  image_page_number : Z
}.

#[export] Instance chunk_attrs : HasAttrs DocumentChunk :=
  {| getattr_id c := Some (id c); getattr_image_id _ := None |}.

#[export] Instance image_attrs : HasAttrs ImageAnalysis :=
  {| getattr_id _ := None; getattr_image_id a := Some (image_id a) |}.

(** Body of a 200 reply once [response.json()] has decoded it:
    [data] is [None] when the key is absent; an item's [embedding] is
    [None] when that key is absent (reading it raises KeyError). *)
Record DataItem := { item_embedding : option (list pyvalue) }.
Record Body := { data : option (list DataItem) }.

Record Response := {
  status : Z;
  text : string;            (* await response.text() *)
  json : exn + Body         (* await response.json() *)
}.

(** What ends a coroutine short of a return: an instance of [Exception],
    or [asyncio.CancelledError], which is a [BaseException] outside
    [Exception]: no [except Exception] clause catches it and
    [isinstance(_, Exception)] is false of it. *)
Inductive raised :=
| Exc (e : exn)
| Cancelled (msg : string).

(** What one [session.post(...)] does, with the reading of its reply: it
    answers, raises an [Exception], or the task is cancelled while it
    waits ([Interrupted]; a cancellation that arrives during the pause
    before an attempt is rendered as that attempt being interrupted). *)
Inductive post_outcome :=
| Responded (r : Response)
| Raised (e : exn)
| Interrupted (msg : string).

(** The world one task runs against: whether [_get_session] (and the
    admission gates before it) raise, and the reply to the request of
    each attempt, given its prepared input. *)
Record TaskEnv := {
  get_session : option raised;
  post : nat -> string -> post_outcome
}.

(** Settings and the fields [__init__] sets. *)
Record Generator := {
  max_retries : nat;
  retry_delay : Z;          (* seconds; 1.0 in the source *)
  vector_dimensions : nat
}.

Definition default_generator : Generator :=
  {| max_retries := 3; retry_delay := 1; vector_dimensions := 1536 |}.

(** Observable steps of one task. *)
Inductive event :=
| Post (attempt : nat) (input : string)
| Sleep (seconds : Z).

Definition max_chars : nat := 7000.

(** [_prepare_text_for_embedding]: [strip], then a cut to [max_chars]
    characters, counted as [len] counts them. *)
Definition _prepare_text_for_embedding (t : string) : string :=
  let t := strip t in
  if (max_chars <? String.length t)%nat then String.substring 0 max_chars t else t.

(** [_prepare_image_text_for_embedding] *)
Definition _prepare_image_text_for_embedding (a : ImageAnalysis) : string :=
  let combined := "Image Description: " +:+ description a in
  let combined :=
    if String.eqb (extracted_text a) "" then combined
    else combined +:+ String (ascii_of_nat 10) (String (ascii_of_nat 10) "Extracted Text: ")
                  +:+ extracted_text a in
  match objects_detected a with
  | [] => combined
  | objs => combined +:+ String (ascii_of_nat 10) (String (ascii_of_nat 10) "Objects Detected: ")
                     +:+ join ", " objs
  end.

(** The test inside [any(...)] of [_validate_embedding]: not a number,
    NaN ([x != x]) or infinite ([abs(x) == inf]). *)
Definition invalid_component (x : pyvalue) : bool :=
  match x with
  | PyNonNumber => true
  | PyInt _ => false
  | PyFloat f => negb (PrimFloat.eqb f f) || PrimFloat.eqb (PrimFloat.abs f) PrimFloat.infinity
  end.

(** [_validate_embedding] *)
Definition _validate_embedding (g : Generator) (e : list pyvalue) : bool :=
  match e with
  | [] => false
  | _ =>
    if negb (length e =? vector_dimensions g)%nat then false
    else if existsb invalid_component e then false
    else true
  end.

Definition failure (item_id ctype err : string) : EmbeddingResult :=
  mkResult item_id [] false ctype (Some err).

(** What the body of the [for attempt in range(max_retries)] loop does
    with one attempt: return from the function, go on to the next attempt
    after the listed sleeps, or let a [CancelledError] through, which
    neither [except aiohttp.ClientError] nor [except Exception] catches. *)
Inductive step := Return (r : EmbeddingResult) | Continue | Escape (msg : string).

(** Retry branch shared by the non-429 HTTP errors and the two [except]
    clauses: sleep [retry_delay * 2 ** attempt] and go on, or give up on
    the last attempt. *)
Definition backoff_or_fail (g : Generator) (attempt : nat) (r : EmbeddingResult)
  : step * list event :=
  if (Z.of_nat attempt <? Z.of_nat (max_retries g) - 1)%Z
  then (Continue, [Sleep (retry_delay g * 2 ^ Z.of_nat attempt)%Z])
  else (Return r, []).

(** The [try] block of one attempt, given what [session.post] did. *)
Definition attempt_body (g : Generator) (item_id ctype : string) (attempt : nat)
    (o : post_outcome) : step * list event :=
  match o with
  | Responded r =>
    if (status r =? 200)%Z then
      match json r with
      | inl e =>
        if is_client_error e
        then backoff_or_fail g attempt (failure item_id ctype ("HTTP client error: " +:+ str e))
        else backoff_or_fail g attempt (failure item_id ctype ("Unexpected error: " +:+ str e))
      | inr body =>
        match data body with
        | Some (d :: _) =>
          match item_embedding d with
          | None =>
            (* result['data'][0]['embedding'] raises KeyError *)
            backoff_or_fail g attempt
              (failure item_id ctype ("Unexpected error: " +:+ "'embedding'"))
          | Some emb =>
            if _validate_embedding g emb
            then (Return (mkResult item_id emb true ctype None), [])
            else (Continue, [])     (* warning logged, falls out of the block *)
          end
        | _ => (Continue, [])       (* warning logged, falls out of the block *)
        end
      end
    else if (status r =? 429)%Z then
      if (Z.of_nat attempt <? Z.of_nat (max_retries g) - 1)%Z
      then (Continue, [Sleep (Z.min (retry_delay g * 2 ^ Z.of_nat attempt) 60)%Z])
      else (Return (failure item_id ctype ("Rate limit exceeded: " +:+ text r)), [])
    else
      backoff_or_fail g attempt
        (failure item_id ctype ("HTTP " +:+ pretty (status r) +:+ ": " +:+ text r))
  | Raised e =>
    if is_client_error e
    then backoff_or_fail g attempt (failure item_id ctype ("HTTP client error: " +:+ str e))
    else backoff_or_fail g attempt (failure item_id ctype ("Unexpected error: " +:+ str e))
  | Interrupted msg => (Escape msg, [])
  end.

(** The [for] loop: [remaining] attempts are left, the next is [attempt].
    Falling out of the loop reaches the final [return ... "Unknown error"];
    [inl msg] is a [CancelledError] leaving the loop. *)
Fixpoint attempts (g : Generator) (env : TaskEnv) (txt item_id ctype : string)
    (remaining attempt : nat) : (string + EmbeddingResult) * list event :=
  match remaining with
  | O => (inr (failure item_id ctype "Unknown error"), [])
  | S k =>
    let input := _prepare_text_for_embedding txt in
    let '(st, evs) := attempt_body g item_id ctype attempt (post env attempt input) in
    match st with
    | Return r => (inr r, Post attempt input :: evs)
    | Continue =>
      let '(r, rest) := attempts g env txt item_id ctype k (S attempt) in
      (r, Post attempt input :: evs ++ rest)
    | Escape msg => (inl msg, Post attempt input :: evs)
    end
  end.

(** [_generate_single_embedding]: raises if acquiring the gates or the
    session raises, or if the task is cancelled inside the loop; otherwise
    returns what the loop returns. *)
Definition _generate_single_embedding (g : Generator) (env : TaskEnv)
    (txt item_id ctype : string) : raised + (EmbeddingResult * list event) :=
  match get_session env with
  | Some x => inl x
  | None =>
    match attempts g env txt item_id ctype (max_retries g) 0 with
    | (inl msg, _) => inl (Cancelled msg)
    | (inr r, evs) => inr (r, evs)
    end
  end.

(** [getattr(o, 'id', getattr(o, 'image_id', f'item_{i}'))] *)
Definition source_id {A} `{HasAttrs A} (i : nat) (o : A) : string :=
  default (default ("item_" +:+ pretty i) (getattr_image_id o)) (getattr_id o).

(** [result.success] on a result that is a [CancelledError] object. *)
Definition no_success_attribute : exn :=
  Raise AttributeError "'CancelledError' object has no attribute 'success'".

(** The loop of [_execute_embedding_tasks] over [enumerate(results)],
    starting at index [i]; [source_objects[i]] raises IndexError out of
    range.  A result that is a [CancelledError] fails
    [isinstance(result, Exception)], is appended as it is, and reading its
    [success] raises AttributeError.  Returns the results and
    [success_count]. *)
Fixpoint collect {A} `{HasAttrs A} (source_objects : list A) (i : nat)
    (results : list (raised + EmbeddingResult)) : exn + (list EmbeddingResult * nat) :=
  match results with
  | [] => inr ([], 0)
  | r :: rs =>
    match r with
    | inl (Exc e) =>
      match source_objects !! i with
      | None => inl (Raise IndexError "list index out of range")
      | Some o =>
        match collect source_objects (S i) rs with
        | inl e' => inl e'
        | inr (out, n) => inr (mkResult (source_id i o) [] false "text" (Some (str e)) :: out, n)
        end
      end
    | inl (Cancelled _) => inl no_success_attribute
    | inr res =>
      match collect source_objects (S i) rs with
      | inl e' => inl e'
      | inr (out, n) => inr (res :: out, if success res then S n else n)
      end
    end
  end.

(** The closing log line: total, success, failed. *)
Record Summary := { total : nat; succeeded : nat; failed : nat }.

(** [_execute_embedding_tasks]: [asyncio.gather] with
    [return_exceptions=True] hands back one entry per task, in order:
    the value a task returned or the exception, [CancelledError]
    included, that ended it. *)
Definition _execute_embedding_tasks {A} `{HasAttrs A}
    (tasks : list (raised + EmbeddingResult)) (source_objects : list A)
  : exn + (list EmbeddingResult * Summary) :=
  match collect source_objects 0 tasks with
  | inl e => inl e
  | inr (out, n) =>
    inr (out, {| total := length source_objects; succeeded := n;
                 failed := length source_objects - n |})
  end.

Definition task_result (r : raised + (EmbeddingResult * list event)) : raised + EmbeddingResult :=
  match r with inl x => inl x | inr (res, _) => inr res end.

(** [generate_embeddings_for_chunks]; [envs i] is the world of the task
    made for [chunks[i]]. *)
Definition generate_embeddings_for_chunks (g : Generator) (envs : nat -> TaskEnv)
    (chunks : list DocumentChunk) : exn + list EmbeddingResult :=
  match chunks with
  | [] => inr []
  | _ =>
    let tasks := imap (fun i c =>
      task_result (_generate_single_embedding g (envs i) (content c) (id c) "text")) chunks in
    match _execute_embedding_tasks tasks chunks with
    | inl e => inl e
    | inr (out, _) => inr out
    end
  end.

(** [generate_embeddings_for_images] *)
Definition generate_embeddings_for_images (g : Generator) (envs : nat -> TaskEnv)
    (image_analyses : list ImageAnalysis) : exn + list EmbeddingResult :=
  match image_analyses with
  | [] => inr []
  | _ =>
    let tasks := imap (fun i a =>
      task_result (_generate_single_embedding g (envs i)
                     (_prepare_image_text_for_embedding a) (image_id a) "image")) image_analyses in
    match _execute_embedding_tasks tasks image_analyses with
    | inl e => inl e
    | inr (out, _) => inr out
    end
  end.

End EmbeddingGen.

(** ** 03_Upload_PDF_Permissions: the shared world

  [auth_manager] is one module-level object; [SecureSearchClient] calls
  into it.  Both run against one state: the group cache, and the traffic
  they have caused so far. *)

Module World.

Import EmbeddingGen.

(** config.Settings, the two permission options. *)
Record Settings := {
  document_access_groups : string;
  default_document_group : string
}.

(** A value of [_group_cache] under a [user_groups_...] key:
    [{"groups": ..., "timestamp": ...}]; the stamp in microseconds. *)
Record CacheEntry := { groups : list string; timestamp : Z }.

(** [self.app.acquire_token_for_client(...)] *)
Inductive TokenReply :=
| TokenGranted (access_token : string)
| TokenRefused (error_description : option string)
| TokenRaised (e : exn).

(** An item of the [value] array of a memberOf reply. *)
Record DirectoryObject := { odata_type : option string; object_id : option string }.

Record GraphResponse := {
  status_code : Z;
  response_text : string;
  (* response.json(), then data.get("value", []) *)
  response_value : exn + list DirectoryObject
}.

Inductive GetReply := GetResponded (r : GraphResponse) | GetRaised (e : exn).

(** Modelled from the spec: the [EmbeddingResult] dataclass of
    03_Upload_PDF_Permissions/embedding_generator.py, a file that is not
    among the sources; the spec's EmbeddingOutcome (unit id, vector,
    succeeded, error), with the field names this directory's callers read. *)
Record EmbeddingResult := {
  chunk_id : string;
  embedding : list pyvalue;
  success : bool;
  error : option string
}.

(** azure.search.documents.models.VectorizedQuery *)
Record VectorizedQuery := {
  vector : list pyvalue;
  k_nearest_neighbors : Z;
  fields : string
}.

(** Keyword arguments of one [search_client.search(...)] call. *)
Record SearchRequest := {
  search_text : option string;
  vector_queries : list VectorizedQuery;
  filter : string;
  top : Z;
  include_total_count : bool;
  facets : option (list string);
  select : list string
}.

(** One hit, a dict: its stored fields, and the score the index put under
    the key [@search.score]. *)
Record Hit := { hit_fields : gmap string string; hit_score : option float }.

(** What iterating the pager of azure.search.documents.aio yields, and
    what awaiting its two accessors would give. *)
Record SearchPage := {
  hits : list Hit;
  get_count : option Z;
  get_facets : option (gmap string (list string))
}.

(** The services, as oracles.  The [k]-th call of each kind is answered
    by the [k]-th value, so a service may answer differently over time. *)
Record Env := {
  settings : Settings;
  now : nat -> Z;                                   (* datetime.now() *)
  acquire_token_for_client : nat -> TokenReply;
  requests_get : nat -> string -> string -> GetReply; (* url, bearer token *)
  (* embedding_generator.generate_embedding(query): the method is in the
     missing file; any behaviour is allowed here. *)
  generate_embedding : nat -> string -> exn + EmbeddingResult;
  search : nat -> SearchRequest -> exn + SearchPage
}.

Record State := {
  _group_cache : gmap string CacheEntry;
  clock_reads : nat;
  token_calls : nat;
  lookups : list string;            (* urls fetched, oldest first *)
  embed_calls : list string;        (* queries embedded, oldest first *)
  searches : list SearchRequest     (* index queries, oldest first *)
}.

Definition initial : State :=
  {| _group_cache := ∅; clock_reads := 0; token_calls := 0;
     lookups := []; embed_calls := []; searches := [] |}.

(** Code that reads and writes the state and may raise. *)
Definition M (A : Type) : Type := State -> (exn + A) * State.

#[export] Instance M_ret : MRet M := fun A (a : A) s => (inr a, s).

#[export] Instance M_bind : MBind M := fun A B (f : A -> M B) (m : M A) s =>
  match m s with
  | (inl e, s') => (inl e, s')
  | (inr a, s') => f a s'
  end.

Definition raise {A} (e : exn) : M A := fun s => (inl e, s).

(** [try: m except Exception as e: h e] *)
Definition try_except {A} (m : M A) (h : exn -> M A) : M A := fun s =>
  match m s with
  | (inl e, s') => h e s'
  | (inr a, s') => (inr a, s')
  end.

Definition lift {A} (r : exn + A) : M A := fun s => (r, s).

Definition get_cache : M (gmap string CacheEntry) := fun s => (inr (_group_cache s), s).

Definition set_cache (k : string) (v : CacheEntry) : M unit := fun s =>
  (inr tt, {| _group_cache := <[k := v]> (_group_cache s); clock_reads := clock_reads s;
              token_calls := token_calls s; lookups := lookups s;
              embed_calls := embed_calls s; searches := searches s |}).

Definition datetime_now (env : Env) : M Z := fun s =>
  (inr (now env (clock_reads s)),
   {| _group_cache := _group_cache s; clock_reads := S (clock_reads s);
      token_calls := token_calls s; lookups := lookups s;
      embed_calls := embed_calls s; searches := searches s |}).

Definition call_acquire_token (env : Env) : M TokenReply := fun s =>
  (inr (acquire_token_for_client env (token_calls s)),
   {| _group_cache := _group_cache s; clock_reads := clock_reads s;
      token_calls := S (token_calls s); lookups := lookups s;
      embed_calls := embed_calls s; searches := searches s |}).

Definition call_requests_get (env : Env) (url token : string) : M GraphResponse := fun s =>
  let s' := {| _group_cache := _group_cache s; clock_reads := clock_reads s;
               token_calls := token_calls s; lookups := lookups s ++ [url];
               embed_calls := embed_calls s; searches := searches s |} in
  match requests_get env (length (lookups s)) url token with
  | GetResponded r => (inr r, s')
  | GetRaised e => (inl e, s')
  end.

Definition call_generate_embedding (env : Env) (query : string) : M EmbeddingResult := fun s =>
  (generate_embedding env (length (embed_calls s)) query,
   {| _group_cache := _group_cache s; clock_reads := clock_reads s;
      token_calls := token_calls s; lookups := lookups s;
      embed_calls := embed_calls s ++ [query]; searches := searches s |}).

Definition call_search (env : Env) (rq : SearchRequest) : M SearchPage := fun s =>
  (search env (length (searches s)) rq,
   {| _group_cache := _group_cache s; clock_reads := clock_reads s;
      token_calls := token_calls s; lookups := lookups s;
      embed_calls := embed_calls s; searches := searches s ++ [rq] |}).

End World.

(** ** The filter language of the index, as far as the builder uses it *)

Module OData.

(** The search service evaluates a filter string against a document's
    [document_groups] collection.  This reads the expressions
      document_groups/any(g: g eq 'LIT') or document_groups/any(...) ...
    the way an OData lexer does: a string literal runs to the next single
    quote, and two single quotes in a row stand for one quote character
    inside the literal. *)

Definition clause_open : string := "document_groups/any(g: g eq '".

Fixpoint strip_prefix (p s : string) : option string :=
  match p with
  | EmptyString => Some s
  | String a p' =>
    match s with
    | String b s' => if Ascii.eqb a b then strip_prefix p' s' else None
    | EmptyString => None
    end
  end.

(** Reads a literal whose opening quote has been consumed: the literal
    and what follows its closing quote. *)
Fixpoint read_literal (s : string) : option (string * string) :=
  match s with
  | EmptyString => None
  | String c s' =>
    if Ascii.eqb c "'" then
      match s' with
      | String c2 s'' =>
        if Ascii.eqb c2 "'"
        then match read_literal s'' with
             | Some (l, r) => Some (String "'" l, r)
             | None => None
             end
        else Some (EmptyString, s')
      | EmptyString => Some (EmptyString, EmptyString)
      end
    else match read_literal s' with
         | Some (l, r) => Some (String c l, r)
         | None => None
         end
  end.

(** The literals of a disjunction of [any] clauses; [fuel] bounds the
    number of clauses. *)
Fixpoint parse (fuel : nat) (s : string) : option (list string) :=
  match fuel with
  | O => None
  | S n =>
    match strip_prefix clause_open s with
    | None => None
    | Some s1 =>
      match read_literal s1 with
      | None => None
      | Some (lit, s2) =>
        match strip_prefix ")" s2 with
        | None => None
        | Some EmptyString => Some [lit]
        | Some s3 =>
          match strip_prefix " or " s3 with
          | None => None
          | Some s4 =>
            match parse n s4 with
            | Some lits => Some (lit :: lits)
            | None => None
            end
          end
        end
      end
    end
  end.

(** [matches f groups]: the filter [f] selects a document whose
    [document_groups] is [groups].  A filter the service cannot read is
    rejected and selects nothing. *)
Definition matches (f : string) (document_groups : list string) : bool :=
  match parse (S (String.length f)) f with
  | Some lits => existsb (fun l => bool_decide (l ∈ document_groups)) lits
  | None => false
  end.

End OData.

(** ** 03_Upload_PDF_Permissions/entraid_auth.py *)

Module EntraIDAuth.

Import World.

Fixpoint split_comma (s : string) : list string :=
  match s with
  | EmptyString => [EmptyString]
  | String c s' =>
    if Ascii.eqb c ","
    then EmptyString :: split_comma s'
    else match split_comma s' with
         | h :: t => String c h :: t
         | [] => [String c EmptyString]
         end
  end.

(** config.Settings.document_access_groups_list *)
Definition document_access_groups_list (st : Settings) : list string :=
  if String.eqb (document_access_groups st) "" then []
  else List.filter (fun g => negb (String.eqb g ""))
         (map strip (split_comma (document_access_groups st))).

(** [timedelta(minutes=30)], in microseconds. *)
Definition _cache_expiry : Z := 30 * 60 * 1000000.

(** [get_access_token] *)
Definition get_access_token (env : Env) : M string :=
  result ← call_acquire_token env;
  match result with
  | TokenGranted tok => mret tok
  | TokenRefused d =>
    raise (Exception ("Token acquisition failed: " +:+ default "Unknown error" d))
  | TokenRaised e => raise e
  end.

(** The loop over [data.get("value", [])]: ids of the group objects;
    [item["id"]] raises KeyError when the key is absent. *)
Fixpoint extract_groups (items : list DirectoryObject) : exn + list string :=
  match items with
  | [] => inr []
  | item :: rest =>
    if bool_decide (odata_type item = Some "#microsoft.graph.group") then
      match object_id item with
      | None => inl (Raise KeyError "'id'")
      | Some i =>
        match extract_groups rest with
        | inl e => inl e
        | inr gs => inr (i :: gs)
        end
      end
    else extract_groups rest
  end.

Definition memberOf_url (user_id : string) : string :=
  "https://graph.microsoft.com/v1.0/users/" +:+ user_id +:+ "/memberOf".

(** The cache probe at the head of [get_user_groups]. *)
Definition cached_groups (env : Env) (cache_key : string) : M (option (list string)) :=
  cache ← get_cache;
  match cache !! cache_key with
  | Some cached_data =>
    t ← datetime_now env;
    if (t - timestamp cached_data <? _cache_expiry)%Z
    then mret (Some (groups cached_data))
    else mret None
  | None => mret None
  end.

(** [get_user_groups]; its [except] clause logs and re-raises. *)
Definition get_user_groups (env : Env) (user_id : string) : M (list string) :=
  let cache_key := "user_groups_" +:+ user_id in
  hit ← cached_groups env cache_key;
  match hit with
  | Some gs => mret gs
  | None =>
    token ← get_access_token env;
    response ← call_requests_get env (memberOf_url user_id) token;
    if (status_code response =? 200)%Z then
      items ← lift (response_value response);
      gs ← lift (extract_groups items);
      t ← datetime_now env;
      _ ← set_cache cache_key {| groups := gs; timestamp := t |};
      mret gs
    else
      raise (Exception ("Failed to get user groups: " +:+ pretty (status_code response)
                        +:+ " - " +:+ response_text response))
  end.

(** [validate_user_access] *)
Definition validate_user_access (env : Env) (user_id : string)
    (required_groups : list string) : M bool :=
  try_except
    (match required_groups with
     | [] => mret true
     | _ =>
       user_groups ← get_user_groups env user_id;
       let user_groups_set : gset string := list_to_set user_groups in
       let required_groups_set : gset string := list_to_set required_groups in
       mret (bool_decide (user_groups_set ∩ required_groups_set ≠ ∅))
     end)
    (fun _ => mret false).

(** [get_user_accessible_groups]; [list(a.intersection(b))] lists the
    common elements in an order Python leaves open, here that of
    [elements]. *)
Definition get_user_accessible_groups (env : Env) (user_id : string) : M (list string) :=
  try_except
    (user_groups ← get_user_groups env user_id;
     let document_groups := document_access_groups_list (settings env) in
     let user_groups_set : gset string := list_to_set user_groups in
     let document_groups_set : gset string := list_to_set document_groups in
     mret (elements (user_groups_set ∩ document_groups_set)))
    (fun _ => mret []).

(** [generate_security_filter] *)
Definition generate_security_filter (user_accessible_groups : list string) : string :=
  match user_accessible_groups with
  | [] => "document_groups/any(g: g eq 'no-access')"
  | _ =>
    join " or "
      (map (fun group_id => "document_groups/any(g: g eq '" +:+ group_id +:+ "')")
           user_accessible_groups)
  end.

End EntraIDAuth.

(** ** 03_Upload_PDF_Permissions/secure_search.py *)

Module SecureSearch.

Import World EntraIDAuth.

(** An element of the [results] list. *)
Record ResultItem := {
  r_id : option string;
  r_title : option string;
  r_content : option string;
  r_headline : option string;
  r_file_name : option string;
  r_page_number : option string;
  r_chunk_index : option string;
  r_created_at : option string;
  r_search_score : option float
}.

(** What is stored under ["count"]: a number, or the coroutine object that
    a call of [get_count] without [await] leaves. *)
Inductive count_value := Count (n : Z) | CountCoroutine.

Coercion Count : Z >-> count_value.

(** What is stored under ["facets"]: a dict, or the coroutine object that
    a call of [get_facets] without [await] leaves. *)
Inductive facets_value := Facets (m : gmap string (list string)) | FacetsCoroutine.

(** The dictionary every search path returns. *)
Record SearchResult := {
  results : list ResultItem;
  count : count_value;
  result_facets : facets_value;
  message : option string;
  error : option string
}.

Definition selected : list string :=
  ["id"; "title"; "content"; "headline"; "file_name"; "page_number"; "chunk_index"; "created_at"].

(** [_process_search_results].  The pager comes from
    azure.search.documents.aio, where [get_facets] and [get_count] are
    coroutine functions: called without [await], as here, each gives a
    coroutine object, which is truthy, so neither [or {}] nor
    [or len(results)] replaces it.  A hit is a dict and has no attribute
    named [@search.score], so [getattr] gives its default. *)
Definition _process_search_results (page : SearchPage) : SearchResult :=
  let rs := map (fun h =>
    {| r_id := hit_fields h !! "id";
       r_title := hit_fields h !! "title";
       r_content := hit_fields h !! "content";
       r_headline := hit_fields h !! "headline";
       r_file_name := hit_fields h !! "file_name";
       r_page_number := hit_fields h !! "page_number";
       r_chunk_index := hit_fields h !! "chunk_index";
       r_created_at := hit_fields h !! "created_at";
       (* getattr(result, '@search.score', None) *)
       r_search_score := None |}) (hits page) in
  {| results := rs;
     (* search_results.get_count() or len(results) *)
     count := CountCoroutine;
     (* search_results.get_facets() or {} *)
     result_facets := FacetsCoroutine;
     message := None;
     error := None |}.

(** [_text_search]; its [except] clause logs and re-raises. *)
Definition _text_search (env : Env) (query filter_expression : string) (top : Z)
    (include_total_count : bool) (facets : option (list string)) : M SearchResult :=
  page ← call_search env
    {| search_text := Some query; vector_queries := []; filter := filter_expression;
       top := top; include_total_count := include_total_count; facets := facets;
       select := selected |};
  mret (_process_search_results page).

(** [_vector_search] *)
Definition _vector_search (env : Env) (query filter_expression : string) (top : Z)
    (include_total_count : bool) (facets : option (list string)) : M SearchResult :=
  embedding_result ← call_generate_embedding env query;
  if negb (success embedding_result) then
    raise (Exception ("Failed to generate embedding: "
                      +:+ default "None" (World.error embedding_result)))
  else
    page ← call_search env
      {| search_text := None;
         vector_queries := [ {| vector := embedding embedding_result;
                                k_nearest_neighbors := top; fields := "embedding" |} ];
         filter := filter_expression; top := top;
         include_total_count := include_total_count; facets := facets;
         select := selected |};
    mret (_process_search_results page).

(** [_hybrid_search] *)
Definition _hybrid_search (env : Env) (query filter_expression : string) (top : Z)
    (include_total_count : bool) (facets : option (list string)) : M SearchResult :=
  embedding_result ← call_generate_embedding env query;
  if negb (success embedding_result) then
    _text_search env query filter_expression top include_total_count facets
  else
    page ← call_search env
      {| search_text := Some query;
         vector_queries := [ {| vector := embedding embedding_result;
                                k_nearest_neighbors := top; fields := "embedding" |} ];
         filter := filter_expression; top := top;
         include_total_count := include_total_count; facets := facets;
         select := selected |};
    mret (_process_search_results page).

(** [search_with_permissions] *)
Definition search_with_permissions (env : Env) (query user_id search_type : string)
    (top : Z) (include_total_count : bool) (facets : option (list string))
    (filter_expression : option string) : M SearchResult :=
  try_except
    (user_groups ← get_user_accessible_groups env user_id;
     match user_groups with
     | [] =>
       mret {| results := []; count := Count 0; result_facets := Facets ∅;
               message := Some "No accessible documents found"; error := None |}
     | _ =>
       let security_filter := generate_security_filter user_groups in
       let combined_filter :=
         match filter_expression with
         | Some fe =>
           if String.eqb fe "" then security_filter
           else "(" +:+ security_filter +:+ ") and (" +:+ fe +:+ ")"
         | None => security_filter
         end in
       if String.eqb search_type "vector" then
         _vector_search env query combined_filter top include_total_count facets
       else if String.eqb search_type "text" then
         _text_search env query combined_filter top include_total_count facets
       else
         _hybrid_search env query combined_filter top include_total_count facets
     end)
    (fun e =>
       mret {| results := []; count := Count 0; result_facets := Facets ∅;
               message := None; error := Some (str e) |}).

End SecureSearch.

(** ** 03_Upload_PDF_Permissions/search_uploader.py *)

Module SearchUploader.

Import EmbeddingGen.
Import World.

(** A [datetime], seen through what the uploader asks of it. *)
Record datetime := {
  tzinfo : option string;
  strftime_utc : string;     (* strftime("%Y-%m-%dT%H:%M:%S.%fZ") *)
  isoformat : string
}.

(** pdf_processor.DocumentChunk of this directory. *)
Record DocumentChunk := {
  id : string;
  title : string;
  content : string;
  headline : string;
  file_name : string;
  page_number : Z;
  chunk_index : Z;
  created_at : datetime;
  token_count : Z;
  document_groups : list string;
  default_group : string;
  permission_level : string
}.

(** The dictionary sent to the index for one chunk. *)
Record Document := {
  d_id : string;
  d_title : string;
  d_content : string;
  d_headline : string;
  d_embedding : list pyvalue;
  d_file_name : string;
  d_page_number : Z;
  d_chunk_index : Z;
  d_created_at : string;
  d_token_count : Z;
  d_document_groups : list string;
  d_default_group : string;
  d_permission_level : string
}.

(** Per-document status in the reply to an upload. *)
Record IndexingResult := {
  succeeded : bool;
  key : string;
  error_message : string
}.

(** [{"success": ..., "failed": ..., "errors": [...]}] *)
Record Report := { r_success : nat; r_failed : nat; r_errors : list string }.

Inductive log_event :=
| NoDocumentsToUpload
| UploadingDocuments (chunk_count embedding_count : nat)
| SkippingChunk (chunk_id : string)
| NoValidDocuments
| UploadingBatch (batch_number document_count : nat)
| DocumentUploadFailed (document_id error : string)
| BatchCompleted (batch_number success failed : nat)
| BatchFailed (batch_number : nat) (error : string)
| UploadCompleted (total_documents success failed skipped : nat).

(** The index service: the reply to [search_client.upload_documents] for
    the batch with the given number. *)
Definition UploadApi : Type := nat -> list Document -> exn + list IndexingResult.

(** What a run leaves behind: the batches handed to the service, and the
    log. *)
Record Trace := { sent : list (list Document); log : list log_event }.

(** The loop of [_upload_batch] over the per-document statuses. *)
Fixpoint tally (rs : list IndexingResult) : Report * list log_event :=
  match rs with
  | [] => ({| r_success := 0; r_failed := 0; r_errors := [] |}, [])
  | r :: rest =>
    let '(rep, lg) := tally rest in
    if succeeded r
    then ({| r_success := S (r_success rep); r_failed := r_failed rep;
             r_errors := r_errors rep |}, lg)
    else ({| r_success := r_success rep; r_failed := S (r_failed rep);
             r_errors := ("Document " +:+ key r +:+ ": " +:+ error_message r) :: r_errors rep |},
          DocumentUploadFailed (key r) (error_message r) :: lg)
  end.

(** [_upload_batch] *)
Definition _upload_batch (api : UploadApi) (documents : list Document) (batch_number : nat)
  : Report * list log_event :=
  match api batch_number documents with
  | inr rs =>
    let '(rep, lg) := tally rs in
    (rep, UploadingBatch batch_number (length documents) :: lg
          ++ [BatchCompleted batch_number (r_success rep) (r_failed rep)])
  | inl e =>
    ({| r_success := 0; r_failed := length documents;
        r_errors := ["Batch " +:+ pretty batch_number +:+ ": " +:+ str e] |},
     [UploadingBatch batch_number (length documents); BatchFailed batch_number (str e)])
  end.

(** [{result.chunk_id: result for result in embeddings}]: a later entry
    replaces an earlier one with the same id. *)
Definition embedding_map (embeddings : list EmbeddingResult) : gmap string EmbeddingResult :=
  foldl (fun m result => <[chunk_id result := result]> m) ∅ embeddings.

Definition make_document (chunk : DocumentChunk) (e : EmbeddingResult) : Document :=
  {| d_id := id chunk; d_title := title chunk; d_content := content chunk;
     d_headline := headline chunk; d_embedding := embedding e;
     d_file_name := file_name chunk; d_page_number := page_number chunk;
     d_chunk_index := chunk_index chunk;
     d_created_at := match tzinfo (created_at chunk) with
                     | None => strftime_utc (created_at chunk)
                     | Some _ => isoformat (created_at chunk)
                     end;
     d_token_count := token_count chunk;
     d_document_groups := document_groups chunk;
     d_default_group := default_group chunk;
     d_permission_level := permission_level chunk |}.

(** The [for chunk in chunks] loop: documents, [skipped_count], log. *)
Fixpoint prepare (m : gmap string EmbeddingResult) (chunks : list DocumentChunk)
  : list Document * nat * list log_event :=
  match chunks with
  | [] => ([], 0, [])
  | chunk :: rest =>
    let '(docs, skipped, lg) := prepare m rest in
    match m !! id chunk with
    | Some e =>
      if success e then (make_document chunk e :: docs, skipped, lg)
      else (docs, S skipped, SkippingChunk (id chunk) :: lg)
    | None => (docs, S skipped, SkippingChunk (id chunk) :: lg)
    end
  end.

Definition batch_size : nat := 100.

(** [range(0, n, batch_size)] *)
Definition batch_starts (n : nat) : list nat :=
  map (fun k => k * batch_size) (seq 0 ((n + batch_size - 1) / batch_size)).

(** The batch loop: [documents[i:i + batch_size]] goes out as batch
    number [i // batch_size + 1]. *)
Fixpoint upload_batches (api : UploadApi) (documents : list Document) (starts : list nat)
    (acc : Report) : Report * Trace :=
  match starts with
  | [] => (acc, {| sent := []; log := [] |})
  | i :: rest =>
    let batch := take batch_size (drop i documents) in
    let '(b, lg) := _upload_batch api batch (i / batch_size + 1) in
    let acc' := {| r_success := r_success acc + r_success b;
                   r_failed := r_failed acc + r_failed b;
                   r_errors := r_errors acc ++ r_errors b |} in
    let '(final, tr) := upload_batches api documents rest acc' in
    (final, {| sent := batch :: sent tr; log := lg ++ log tr |})
  end.

(** [upload_documents] *)
Definition upload_documents (api : UploadApi) (chunks : list DocumentChunk)
    (embeddings : list EmbeddingResult) : Report * Trace :=
  match chunks, embeddings with
  | [], _ | _, [] =>
    ({| r_success := 0; r_failed := 0; r_errors := [] |},
     {| sent := []; log := [NoDocumentsToUpload] |})
  | _, _ =>
    let '(documents, skipped_count, lg) := prepare (embedding_map embeddings) chunks in
    let head := UploadingDocuments (length chunks) (length embeddings) :: lg in
    match documents with
    | [] =>
      ({| r_success := 0; r_failed := length chunks; r_errors := ["No valid documents"] |},
       {| sent := []; log := head ++ [NoValidDocuments] |})
    | _ =>
      let '(rep, tr) :=
        upload_batches api documents (batch_starts (length documents))
          {| r_success := 0; r_failed := 0; r_errors := [] |} in
      (rep, {| sent := sent tr;
               log := head ++ log tr
                      ++ [UploadCompleted (length documents) (r_success rep) (r_failed rep)
                                          skipped_count] |})
    end
  end.

End SearchUploader.

(** ** Reading a task's events, and the replies the properties speak of *)

Module EmbeddingObs.

Import EmbeddingGen.
Local Open Scope list_scope.

(** Requests issued and pauses taken, read off a task's events. *)
Definition posts (evs : list event) : nat :=
  length (List.filter (fun e => match e with Post _ _ => true | Sleep _ => false end) evs).

Definition sleeps (evs : list event) : list Z :=
  omap (fun e => match e with Sleep d => Some d | Post _ _ => None end) evs.

(** [k] rounds of "request, then pause [delay a]", from attempt [a0] on. *)
Definition rounds (delay : nat -> Z) (input : string) (a0 k : nat) : list event :=
  flat_map (fun a => [Post a input; Sleep (delay a)]) (seq a0 k).

(** The reply at attempt [a] is a 429. *)
Definition rate_limited (env : TaskEnv) (input : string) (a : nat) : Prop :=
  exists r, post env a input = Responded r /\ status r = 429%Z.

(** The reply at attempt [a] is a 200 whose first data item carries the
    vector [emb], and [emb] passes validation. *)
Definition answered (g : Generator) (env : TaskEnv) (input : string) (a : nat)
    (emb : list pyvalue) : Prop :=
  exists r d ds, post env a input = Responded r /\ status r = 200%Z
    /\ json r = inr {| data := Some (d :: ds) |}
    /\ item_embedding d = Some emb /\ _validate_embedding g emb = true.

(** The reply at attempt [a] is a 4xx other than 429. *)
Definition client_error (env : TaskEnv) (input : string) (a : nat) : Prop :=
  exists r, post env a input = Responded r
    /\ (400 <= status r < 500)%Z /\ status r <> 429%Z.

(** The task was ended by a cancellation. *)
Definition is_cancelled {A} (r : raised + A) : bool :=
  match r with inl (Cancelled _) => true | _ => false end.

(** The task run for the [i]-th chunk, and for the [i]-th image analysis. *)
Definition chunk_task (g : Generator) (envs : nat -> TaskEnv) (i : nat) (c : DocumentChunk)
  : raised + (EmbeddingResult * list event) :=
  _generate_single_embedding g (envs i) (content c) (id c) "text".

Definition image_task (g : Generator) (envs : nat -> TaskEnv) (i : nat) (a : ImageAnalysis)
  : raised + (EmbeddingResult * list event) :=
  _generate_single_embedding g (envs i) (_prepare_image_text_for_embedding a) (image_id a) "image".

(** Sample replies and worlds. *)

Definition reply_429 : Response :=
  {| status := 429; text := "slow down"; json := inl (Exception "no body") |}.

Definition reply_400 : Response :=
  {| status := 400; text := "bad request"; json := inl (Exception "no body") |}.

Definition sample_vector : list pyvalue := repeat (PyInt 1) 1536.

Definition reply_200 : Response :=
  {| status := 200; text := "";
     json := inr {| data := Some [ {| item_embedding := Some sample_vector |} ] |} |}.

(** Five 429 replies in a row, then a 200. *)
Definition five_429_then_200 : TaskEnv :=
  {| get_session := None;
     post := fun a _ => if (a <? 5)%nat then Responded reply_429 else Responded reply_200 |}.

(** One 400 reply, then a 200. *)
Definition one_400_then_200 : TaskEnv :=
  {| get_session := None;
     post := fun a _ => if (a <? 1)%nat then Responded reply_400 else Responded reply_200 |}.

(** Nothing but 400 replies. *)
Definition always_400 : TaskEnv :=
  {| get_session := None; post := fun _ _ => Responded reply_400 |}.

(** A 200 with a valid vector every time. *)
Definition always_200 : TaskEnv :=
  {| get_session := None; post := fun _ _ => Responded reply_200 |}.

(** The task is cancelled while its first request is under way. *)
Definition cancelled_at_once : TaskEnv :=
  {| get_session := None; post := fun _ _ => Interrupted "" |}.

(** A batch in which the second task, and no other, is cancelled. *)
Definition second_task_cancelled : nat -> TaskEnv :=
  fun i => if (i =? 1)%nat then cancelled_at_once else always_200.

Definition text_chunk_1 : DocumentChunk :=
  {| id := "report_1_0"; title := "Report"; content := "Revenue grew."; headline := "Revenue";
     file_name := "report.pdf"; page_number := 1; chunk_index := 0; created_at := 0;
     token_count := 3; chunk_content_type := "text" |}.

Definition text_chunk_2 : DocumentChunk :=
  {| id := "report_1_1"; title := "Report"; content := "Costs fell."; headline := "Costs";
     file_name := "report.pdf"; page_number := 1; chunk_index := 1; created_at := 0;
     token_count := 3; chunk_content_type := "text" |}.

End EmbeddingObs.

(** ** Group resolution: what the properties speak of, and sample worlds *)

Module AuthObs.

Import World EntraIDAuth.
Local Open Scope list_scope.

(** No single quote in a group id (directory object ids are GUIDs). *)
Fixpoint quote_free (s : string) : bool :=
  match s with
  | EmptyString => true
  | String c s' => negb (Ascii.eqb c "'") && quote_free s'
  end.

(** The value the builder's filter compares against: the groups handed in,
    or the sentinel when there are none. *)
Definition compared_groups (user_accessible_groups : list string) : list string :=
  match user_accessible_groups with
  | [] => ["no-access"]
  | _ => user_accessible_groups
  end.

(** One disjunct of the filter. *)
Definition clause (group_id : string) : string :=
  "document_groups/any(g: g eq '" +:+ group_id +:+ "')".

Definition cache_key (user_id : string) : string := "user_groups_" +:+ user_id.

(** The cache holds nothing usable for the user at the next clock reading:
    no entry, or one at least [_cache_expiry] old. *)
Definition stale_or_absent (env : Env) (user_id : string) (s : State) : Prop :=
  forall c, _group_cache s !! cache_key user_id = Some c ->
            (_cache_expiry <= now env (clock_reads s) - timestamp c)%Z.

(** Clock readings the probe takes: one if an entry is present. *)
Definition probe_reads (user_id : string) (s : State) : nat :=
  match _group_cache s !! cache_key user_id with Some _ => 1 | None => 0 end.

(** The next token request is granted and the next memberOf request for
    the user is answered 200 with the groups [gs]. *)
Definition fetch_ok (env : Env) (user_id : string) (s : State) (gs : list string) : Prop :=
  exists tok r items,
    acquire_token_for_client env (token_calls s) = TokenGranted tok
    /\ requests_get env (length (lookups s)) (memberOf_url user_id) tok = GetResponded r
    /\ status_code r = 200%Z
    /\ response_value r = inr items
    /\ extract_groups items = inr gs.

(** The next token request is granted and the next memberOf request for
    the user is answered with [r], whose status is not 200. *)
Definition fetch_rejected (env : Env) (user_id : string) (s : State) (r : GraphResponse) : Prop :=
  exists tok,
    acquire_token_for_client env (token_calls s) = TokenGranted tok
    /\ requests_get env (length (lookups s)) (memberOf_url user_id) tok = GetResponded r
    /\ status_code r <> 200%Z.

(** Sample worlds.  Readings of the clock are [step] microseconds apart. *)
Definition graph_world (step : Z) (reply : GraphResponse) : Env :=
  {| settings := {| document_access_groups := "g1,g2"; default_document_group := "" |};
     now := fun k => (Z.of_nat k * step)%Z;
     acquire_token_for_client := fun _ => TokenGranted "tok";
     requests_get := fun _ _ _ => GetResponded reply;
     generate_embedding := fun _ _ => inl (Exception "embedding service down");
     search := fun _ _ => inl (Raise HttpResponseError "index down") |}.

Definition ten_minutes : Z := 10 * 60 * 1000000.

Definition member_of_g2 : GraphResponse :=
  {| status_code := 200; response_text := "";
     response_value := inr [ {| odata_type := Some "#microsoft.graph.group";
                                object_id := Some "g2" |};
                             {| odata_type := Some "#microsoft.graph.directoryRole";
                                object_id := Some "r1" |} ] |}.

Definition member_of_nothing : GraphResponse :=
  {| status_code := 200; response_text := ""; response_value := inr [] |}.

Definition service_unavailable : GraphResponse :=
  {| status_code := 503; response_text := "unavailable";
     response_value := inl (Exception "no body") |}.

End AuthObs.

(** ** Search: the requests the properties speak of, and sample worlds *)

Module SearchObs.

Import World EntraIDAuth SecureSearch AuthObs.
Local Open Scope list_scope.

(** The index query of the text mode: the query text, no vector. *)
Definition text_request (query filter_expression : string) (top : Z)
    (include_total_count : bool) (facets : option (list string)) : SearchRequest :=
  {| search_text := Some query; vector_queries := []; filter := filter_expression;
     top := top; include_total_count := include_total_count; facets := facets;
     select := selected |}.

(** What the gateway returns when the user has no accessible groups. *)
Definition no_accessible_documents : SearchResult :=
  {| results := []; count := Count 0; result_facets := Facets ∅;
     message := Some "No accessible documents found"; error := None |}.

Definition one_hit : SearchPage :=
  {| hits := [ {| hit_fields := {[ "id" := "doc-1"; "title" := "Quarterly report" ]};
                  hit_score := None |} ];
     get_count := None; get_facets := None |}.

Definition embedding_refused : EmbeddingResult :=
  {| chunk_id := "query"; embedding := []; success := false;
     World.error := Some "Rate limit exceeded" |}.

(** The user is in g2, the embedding call returns a failure outcome, the
    index answers every query with one hit. *)
Definition embedding_down_world : Env :=
  {| settings := {| document_access_groups := "g1,g2"; default_document_group := "" |};
     now := fun k => (Z.of_nat k * ten_minutes)%Z;
     acquire_token_for_client := fun _ => TokenGranted "tok";
     requests_get := fun _ _ _ => GetResponded member_of_g2;
     generate_embedding := fun _ _ => inr embedding_refused;
     search := fun _ _ => inr one_hit |}.

(** The same, but the embedding call raises. *)
Definition embedding_raises_world : Env :=
  {| settings := {| document_access_groups := "g1,g2"; default_document_group := "" |};
     now := fun k => (Z.of_nat k * ten_minutes)%Z;
     acquire_token_for_client := fun _ => TokenGranted "tok";
     requests_get := fun _ _ _ => GetResponded member_of_g2;
     generate_embedding := fun _ _ => inl (Exception "embedding service down");
     search := fun _ _ => inr one_hit |}.

End SearchObs.

(** ** Publishing: what the properties speak of, and sample inputs *)

Module UploadObs.

Import World SearchUploader.
Local Open Scope list_scope.

(** The document a chunk is published as: it needs an outcome under its
    id, and that outcome must have succeeded. *)
Definition publishable (m : gmap string EmbeddingResult) (chunk : DocumentChunk)
  : option Document :=
  match m !! id chunk with
  | Some e => if success e then Some (make_document chunk e) else None
  | None => None
  end.

(** The chunk's outcome is missing or did not succeed. *)
Definition unembedded (m : gmap string EmbeddingResult) (chunk : DocumentChunk) : bool :=
  match publishable m chunk with Some _ => false | None => true end.

Definition no_report : Report := {| r_success := 0; r_failed := 0; r_errors := [] |}.

(** Ids named in "skipping chunk" warnings. *)
Definition skip_warnings (lg : list log_event) : list string :=
  omap (fun e => match e with SkippingChunk i => Some i | _ => None end) lg.

(** The closing "upload completed" lines: documents, success, failed,
    skipped. *)
Definition completions (lg : list log_event) : list (nat * nat * nat * nat) :=
  omap (fun e => match e with
                 | UploadCompleted t sc f sk => Some (t, sc, f, sk)
                 | _ => None
                 end) lg.

(** Log lines written while a batch is uploaded. *)
Definition batch_line (e : log_event) : bool :=
  match e with
  | UploadingBatch _ _ | DocumentUploadFailed _ _ | BatchCompleted _ _ _ | BatchFailed _ _ => true
  | _ => false
  end.

(** Sample inputs. *)
Definition noon : datetime :=
  {| tzinfo := None; strftime_utc := "2024-05-01T12:00:00.000000Z";
     isoformat := "2024-05-01T12:00:00" |}.

Definition chunk_1 : DocumentChunk :=
  {| id := "report_0"; title := "Report"; content := "Revenue grew.";
     headline := "Revenue"; file_name := "report.pdf"; page_number := 1;
     chunk_index := 0; created_at := noon; token_count := 3;
     document_groups := ["g2"]; default_group := ""; permission_level := "read" |}.

Definition chunk_2 : DocumentChunk :=
  {| id := "report_1"; title := "Report"; content := "Costs fell.";
     headline := "Costs"; file_name := "report.pdf"; page_number := 2;
     chunk_index := 1; created_at := noon; token_count := 3;
     document_groups := ["g2"]; default_group := ""; permission_level := "read" |}.

Definition embedded (i : string) : EmbeddingResult :=
  {| chunk_id := i; embedding := [EmbeddingGen.PyInt 1]; success := true; World.error := None |}.

Definition not_embedded (i : string) : EmbeddingResult :=
  {| chunk_id := i; embedding := []; success := false;
     World.error := Some "Rate limit exceeded" |}.

(** An index that accepts every document. *)
Definition accepting : UploadApi :=
  fun _ docs => inr (map (fun d => {| succeeded := true; key := d_id d; error_message := "" |}) docs).

End UploadObs.

(** ** The embedding client: further readings of outcomes and events *)

Module EmbeddingShape.

Import EmbeddingGen EmbeddingObs.
Local Open Scope list_scope.

(** The two shapes an outcome can have: a success carries a vector of the
    configured dimension whose components are all finite numbers, and no
    error; a failure carries no vector and an error text. *)
Definition well_formed (g : Generator) (r : EmbeddingResult) : Prop :=
  if success r
  then embedding r <> []
       /\ length (embedding r) = vector_dimensions g
       /\ Forall (fun x => invalid_component x = false) (embedding r)
       /\ error r = None
  else embedding r = [] /\ is_Some (error r).

(** Seconds slept in all. *)
Definition total_pause (evs : list event) : Z := foldr Z.add 0%Z (sleeps evs).

(** Inputs of the requests sent. *)
Definition inputs (evs : list event) : list string :=
  omap (fun e => match e with Post _ i => Some i | Sleep _ => None end) evs.

(** The reply at attempt [a] is a 200 whose body has no [data] key or an
    empty [data] array. *)
Definition empty_200 (env : TaskEnv) (input : string) (a : nat) : Prop :=
  exists r body, post env a input = Responded r /\ status r = 200%Z
    /\ json r = inr body /\ (data body = None \/ data body = Some []).

(** Whitespace only. *)
Fixpoint all_space (s : string) : bool :=
  match s with
  | EmptyString => true
  | String c s' => isspace c && all_space s'
  end.

(** The first character is whitespace. *)
Definition starts_with_space (s : string) : bool :=
  match s with
  | String c _ => isspace c
  | EmptyString => false
  end.

(** The last character is whitespace. *)
Fixpoint ends_with_space (s : string) : bool :=
  match s with
  | EmptyString => false
  | String c EmptyString => isspace c
  | String _ s' => ends_with_space s'
  end.

(** The text put before [str(e)] by the two [except] clauses. *)
Definition except_prefix (e : exn) : string :=
  if is_client_error e then "HTTP client error: " else "Unexpected error: ".

(** Sample worlds. *)
Definition reply_empty_200 : Response :=
  {| status := 200; text := "{}"; json := inr {| data := None |} |}.

Definition always_empty_200 : TaskEnv :=
  {| get_session := None; post := fun _ _ => Responded reply_empty_200 |}.

Definition connection_reset : exn := Raise ClientError "Connection reset by peer".

Definition always_disconnected : TaskEnv :=
  {| get_session := None; post := fun _ _ => Raised connection_reset |}.

Definition no_session : TaskEnv :=
  {| get_session := Some (Exc (Raise OtherException "Session is closed"));
     post := fun _ _ => Responded reply_200 |}.

Definition image_1 : ImageAnalysis :=
  {| image_id := "report_p1_img0"; description := "A bar chart"; extracted_text := "";
     objects_detected := []; image_path := "img/0.png"; pdf_source := "report.pdf";
     image_page_number := 1 |}.

End EmbeddingShape.

(** ** 03_Upload_PDF_Permissions: the rest of the auth manager and of the
    search client, and the permission helpers of the PDF processor *)

Module EntraIDAuthRest.

Import World EntraIDAuth.

(** [clear_cache] *)
Definition clear_cache : M unit := fun s =>
  (inr tt, {| _group_cache := ∅; clock_reads := clock_reads s;
              token_calls := token_calls s; lookups := lookups s;
              embed_calls := embed_calls s; searches := searches s |}).

End EntraIDAuthRest.

Module PdfProcessor.

Import World EntraIDAuth SearchUploader.

(** [_get_document_groups]; the path is not looked at. *)
Definition _get_document_groups (st : Settings) (pdf_path : string) : list string :=
  match document_access_groups_list st with
  | [] =>
    if String.eqb (default_document_group st) "" then []
    else [default_document_group st]
  | document_groups => document_groups
  end.

(** [update_chunk_permissions]; [default_group] is [None] or a string, and
    an empty string leaves the chunk's default group as it is. *)
Definition update_chunk_permissions (chunk : DocumentChunk) (groups : list string)
    (default_group' : option string) : DocumentChunk :=
  {| id := id chunk; title := title chunk; content := content chunk;
     headline := headline chunk; file_name := file_name chunk;
     page_number := page_number chunk; chunk_index := chunk_index chunk;
     created_at := created_at chunk; token_count := token_count chunk;
     document_groups := groups;
     default_group := match default_group' with
                      | Some d => if String.eqb d "" then default_group chunk else d
                      | None => default_group chunk
                      end;
     permission_level := permission_level chunk |}.

(** A character a document key may hold: [a-zA-Z0-9_\-=]. *)
Definition key_char (c : ascii) : bool :=
  let n := nat_of_ascii c in
  ((97 <=? n)%nat && (n <=? 122)%nat) || ((65 <=? n)%nat && (n <=? 90)%nat)
  || ((48 <=? n)%nat && (n <=? 57)%nat)
  || Ascii.eqb c "_" || Ascii.eqb c "-" || Ascii.eqb c "=".

(** [re.sub(r'[^a-zA-Z0-9_\-=]', '_', s)] *)
Fixpoint replace_invalid (s : string) : string :=
  match s with
  | EmptyString => EmptyString
  | String c s' => String (if key_char c then c else "_"%char) (replace_invalid s')
  end.

(** [re.sub(r'_+', '_', s)]: an underscore followed by another one is
    dropped, so each run keeps its last. *)
Fixpoint collapse_underscores (s : string) : string :=
  match s with
  | EmptyString => EmptyString
  | String c s' =>
    if Ascii.eqb c "_" then
      match s' with
      | String c2 _ => if Ascii.eqb c2 "_" then collapse_underscores s'
                       else String c (collapse_underscores s')
      | EmptyString => String c EmptyString
      end
    else String c (collapse_underscores s')
  end.

Fixpoint lstrip_char (x : ascii) (s : string) : string :=
  match s with
  | String c s' => if Ascii.eqb c x then lstrip_char x s' else s
  | EmptyString => EmptyString
  end.

Fixpoint rstrip_char (x : ascii) (s : string) : string :=
  match s with
  | EmptyString => EmptyString
  | String c s' =>
    match rstrip_char x s' with
    | EmptyString => if Ascii.eqb c x then EmptyString else String c EmptyString
    | r => String c r
    end
  end.

(** [s.strip('_')] *)
Definition strip_underscores (s : string) : string :=
  rstrip_char "_" (lstrip_char "_" s).

(** [_sanitize_filename_for_key] *)
Definition _sanitize_filename_for_key (filename : string) : string :=
  strip_underscores (collapse_underscores (replace_invalid filename)).

End PdfProcessor.

Module SecureSearchRest.

Import World EntraIDAuth SecureSearch.

(** The statistics dictionary. *)
Record Statistics := {
  accessible_documents : count_value;
  accessible_groups : nat;
  file_count : nat;
  stat_groups : list string;
  stat_error : option string
}.

(** The query of [get_document_by_id]: only [search_text], [filter] and
    [top] are passed. *)
Definition document_request (document_id security_filter : string) : SearchRequest :=
  {| search_text := Some "*"; vector_queries := [];
     filter := "id eq '" +:+ document_id +:+ "' and (" +:+ security_filter +:+ ")";
     top := 1; include_total_count := false; facets := None; select := [] |}.

(** [get_document_by_id]: the first hit, or None. *)
Definition get_document_by_id (env : Env) (document_id user_id : string) : M (option Hit) :=
  try_except
    (user_groups ← get_user_accessible_groups env user_id;
     match user_groups with
     | [] => mret None
     | _ =>
       let security_filter := generate_security_filter user_groups in
       page ← call_search env (document_request document_id security_filter);
       match hits page with
       | result :: _ => mret (Some result)
       | [] => mret None
       end
     end)
    (fun _ => mret None).

(** The query of [get_user_statistics]. *)
Definition statistics_request (security_filter : string) : SearchRequest :=
  {| search_text := Some "*"; vector_queries := []; filter := security_filter;
     top := 0; include_total_count := true; facets := Some ["file_name"]; select := [] |}.

Definition no_statistics (err : option string) : Statistics :=
  {| accessible_documents := Count 0; accessible_groups := 0; file_count := 0;
     stat_groups := []; stat_error := err |}.

(** [facets.get] on a coroutine object. *)
Definition no_get_attribute : exn :=
  Raise AttributeError "'coroutine' object has no attribute 'get'".

(** [get_user_statistics].  As in [_process_search_results], the pager's
    [get_count] and [get_facets] are called without [await]: each leaves a
    coroutine object, which is truthy, so neither [or 0] nor [or {}]
    replaces it, and [facets.get] raises AttributeError inside the [try]. *)
Definition get_user_statistics (env : Env) (user_id : string) : M Statistics :=
  try_except
    (user_groups ← get_user_accessible_groups env user_id;
     match user_groups with
     | [] => mret (no_statistics None)
     | _ =>
       let security_filter := generate_security_filter user_groups in
       page ← call_search env (statistics_request security_filter);
       (* search_results.get_count() or 0 *)
       let document_count := CountCoroutine in
       (* search_results.get_facets() or {} *)
       let facets := FacetsCoroutine in
       match facets with
       | Facets m =>
         let file_facets := default [] (m !! "file_name") in
         mret {| accessible_documents := document_count;
                 accessible_groups := length user_groups;
                 file_count := length file_facets;
                 stat_groups := user_groups;
                 stat_error := None |}
       | FacetsCoroutine => raise no_get_attribute
       end
     end)
    (fun e => mret (no_statistics (Some (str e)))).

End SecureSearchRest.

Module MoreObs.

Import World EntraIDAuth AuthObs.
Local Open Scope list_scope.

(** A memberOf item is a group object. *)
Definition is_group (item : DirectoryObject) : bool :=
  bool_decide (odata_type item = Some "#microsoft.graph.group").

(** A memberOf item that is a group carries an id. *)
Definition group_has_id (item : DirectoryObject) : bool :=
  negb (is_group item) || bool_decide (is_Some (object_id item)).

(** A cache with a fresh entry for alice. *)
Definition alice_cached : State :=
  {| _group_cache := {[ cache_key "alice" := {| groups := ["g1"]; timestamp := 0 |} ]};
     clock_reads := 0; token_calls := 0; lookups := []; embed_calls := []; searches := [] |}.

(** The token service refuses; the graph would answer. *)
Definition token_refused_world : Env :=
  {| settings := {| document_access_groups := "g1,g2"; default_document_group := "" |};
     now := fun k => (Z.of_nat k * ten_minutes)%Z;
     acquire_token_for_client := fun _ => TokenRefused (Some "AADSTS7000215: invalid client secret");
     requests_get := fun _ _ _ => GetResponded member_of_g2;
     generate_embedding := fun _ _ => inl (Exception "embedding service down");
     search := fun _ _ => inl (Raise HttpResponseError "index down") |}.

(** Settings with no access groups and no default group. *)
Definition nothing_configured : Settings :=
  {| document_access_groups := ""; default_document_group := "" |}.

End MoreObs.

Module KeyObs.

Import PdfProcessor.

(** Every character of the string passes the test. *)
Fixpoint all_chars (p : ascii -> bool) (s : string) : bool :=
  match s with
  | EmptyString => true
  | String c s' => p c && all_chars p s'
  end.

(** The string starts with the character. *)
Definition starts_with (x : ascii) (s : string) : bool :=
  match s with
  | String c _ => Ascii.eqb c x
  | EmptyString => false
  end.

(** The string ends with the character. *)
Fixpoint ends_with (x : ascii) (s : string) : bool :=
  match s with
  | EmptyString => false
  | String c EmptyString => Ascii.eqb c x
  | String _ s' => ends_with x s'
  end.

(** No two underscores in a row. *)
Fixpoint no_double_underscore (s : string) : bool :=
  match s with
  | EmptyString => true
  | String c s' => negb (Ascii.eqb c "_" && starts_with "_" s') && no_double_underscore s'
  end.

(** What a document key must look like once sanitized. *)
Definition clean_key (s : string) : bool :=
  all_chars key_char s && no_double_underscore s
  && negb (starts_with "_" s) && negb (ends_with "_" s).

End KeyObs.


Module GatewayObs.

Import World EntraIDAuth SecureSearch SecureSearchRest AuthObs.
Local Open Scope list_scope.

(** The filter the gateway sends: the security filter, alone or in
    conjunction with the caller's filter. *)
Definition combined_filter (security_filter : string) (filter_expression : option string)
  : string :=
  match filter_expression with
  | Some fe =>
    if String.eqb fe "" then security_filter
    else "(" +:+ security_filter +:+ ") and (" +:+ fe +:+ ")"
  | None => security_filter
  end.

(** The mode the gateway runs for a [search_type]. *)
Definition mode_of (search_type : string)
  : Env -> string -> string -> Z -> bool -> option (list string) -> M SearchResult :=
  if String.eqb search_type "vector" then _vector_search
  else if String.eqb search_type "text" then _text_search
  else _hybrid_search.

(** What the gateway returns when something inside it raised. *)
Definition failed_search (e : exn) : SearchResult :=
  {| results := []; count := Count 0; result_facets := Facets ∅;
     message := None; error := Some (str e) |}.

(** The index answers with one hit whatever the query. *)
Definition index_only_world : Env :=
  {| settings := {| document_access_groups := "g1,g2"; default_document_group := "" |};
     now := fun k => (Z.of_nat k * ten_minutes)%Z;
     acquire_token_for_client := fun _ => TokenGranted "tok";
     requests_get := fun _ _ _ => GetResponded member_of_g2;
     generate_embedding := fun _ _ => inl (Exception "embedding service down");
     search := fun _ _ => inr {| hits := [ {| hit_fields := {[ "id" := "doc-1" ]};
                                             hit_score := None |} ];
                                get_count := Some 1%Z;
                                get_facets := Some {[ "file_name" := ["report.pdf"] ]} |} |}.

End GatewayObs.

Module UploadMoreObs.

Import World SearchUploader UploadObs.
Local Open Scope list_scope.

(** The service answers an upload with one status per document, or
    raises. *)
Definition one_status_per_document (api : UploadApi) : Prop :=
  forall batch_number documents,
    match api batch_number documents with
    | inr rs => length rs = length documents
    | inl _ => True
    end.

(** An index that is down for the second batch and rejects every document
    whose id is "report_1" in the others. *)
Definition flaky : UploadApi :=
  fun batch_number docs =>
    if (batch_number =? 2)%nat then inl (Raise HttpResponseError "503 Service Unavailable")
    else inr (map (fun d => {| succeeded := negb (String.eqb (d_id d) "report_1");
                               key := d_id d; error_message := "rejected" |}) docs).

End UploadMoreObs.

(** * Properties *)

(** ** The embedding client and its batches *)

Module EmbeddingGenProps.

Import EmbeddingGen EmbeddingObs.
Local Open Scope list_scope.

Lemma posts_app evs1 evs2 : posts (evs1 ++ evs2) = posts evs1 + posts evs2.
Proof. unfold posts. by rewrite List.filter_app, length_app. Qed.

Lemma sleeps_app evs1 evs2 : sleeps (evs1 ++ evs2) = sleeps evs1 ++ sleeps evs2.
Proof. unfold sleeps. apply omap_app. Qed.

Lemma rounds_S delay input a0 k :
  rounds delay input a0 (S k)
  = Post a0 input :: Sleep (delay a0) :: rounds delay input (S a0) k.
Proof. reflexivity. Qed.

Lemma posts_rounds delay input a0 k : posts (rounds delay input a0 k) = k.
Proof.
  revert a0. induction k as [|k IH]; intros a0; [reflexivity|].
  rewrite rounds_S. change (S (posts (rounds delay input (S a0) k)) = S k). by rewrite IH.
Qed.

Lemma sleeps_rounds delay input a0 k :
  sleeps (rounds delay input a0 k) = map delay (seq a0 k).
Proof.
  revert a0. induction k as [|k IH]; intros a0; [reflexivity|].
  rewrite rounds_S. change (delay a0 :: sleeps (rounds delay input (S a0) k) = map delay (seq a0 (S k))).
  by rewrite IH.
Qed.

(** Every way out of one attempt carries the item's id. *)
Lemma attempt_body_id g item_id ctype a o r evs :
  attempt_body g item_id ctype a o = (Return r, evs) -> chunk_id r = item_id.
Proof.
  unfold attempt_body, backoff_or_fail, failure.
  intros Hb. repeat case_match; simplify_eq; reflexivity.
Qed.

Lemma attempts_id g env txt item_id ctype n a r :
  (attempts g env txt item_id ctype n a).1 = inr r -> chunk_id r = item_id.
Proof.
  revert a. induction n as [|n IH]; intros a; simpl.
  - by intros [= <-].
  - destruct (attempt_body _ _ _ _ _) as [st evs] eqn:Hb.
    destruct st as [r'| |msg]; simpl.
    + intros [= <-]. eapply attempt_body_id, Hb.
    + specialize (IH (S a)). destruct (attempts _ _ _ _ _ n (S a)) as [r0 rest]. exact IH.
    + discriminate.
Qed.

Lemma single_embedding_id g env txt item_id ctype r :
  task_result (_generate_single_embedding g env txt item_id ctype) = inr r ->
  chunk_id r = item_id.
Proof.
  unfold _generate_single_embedding. destruct (get_session env); [discriminate|].
  pose proof (attempts_id g env txt item_id ctype (max_retries g) 0) as Hid.
  destruct (attempts _ _ _ _ _ _ _) as [[msg|r'] evs]; simpl; [discriminate|].
  intros [= <-]. by apply Hid.
Qed.

Lemma is_cancelled_task_result (r : raised + (EmbeddingResult * list event)) :
  is_cancelled (task_result r) = is_cancelled r.
Proof. by destruct r as [[e|msg]|[res evs]]. Qed.

(** With no cancelled task among them, the collecting loop keeps one entry
    per source object, in order. *)
Lemma collect_ids {A} `{HasAttrs A} (ident : A -> string) (src : list A) :
  (forall i o, source_id i o = ident o) ->
  forall tasks i,
    length tasks = length (drop i src) ->
    (forall k t, tasks !! k = Some t -> is_cancelled t = false) ->
    (forall k r, tasks !! k = Some (inr r) ->
                 exists o, src !! (i + k) = Some o /\ chunk_id r = ident o) ->
    exists out n, collect src i tasks = inr (out, n)
                  /\ map chunk_id out = map ident (drop i src).
Proof.
  intros Hid tasks. induction tasks as [|t ts IH]; intros i Hlen Hnc Hk.
  - simpl in Hlen. symmetry in Hlen. apply length_zero_iff_nil in Hlen.
    exists [], 0. by rewrite Hlen.
  - assert (is_Some (src !! i)) as [o Ho].
    { apply lookup_lt_is_Some. rewrite length_drop in Hlen. simpl in Hlen. lia. }
    rewrite (drop_S _ _ _ Ho) in Hlen |- *. simpl in Hlen.
    destruct (IH (S i)) as (out & n & Hc & Hm).
    + lia.
    + intros k t' Ht'. apply (Hnc (S k)). exact Ht'.
    + intros k r Hr. destruct (Hk (S k) r Hr) as (o' & Ho' & Hr').
      exists o'. split; [|done]. by replace (S i + k) with (i + S k) by lia.
    + simpl. destruct t as [[e|msg]|res].
      * rewrite Ho, Hc. eexists _, _. split; [reflexivity|].
        simpl. by rewrite Hid, Hm.
      * by specialize (Hnc 0 _ eq_refl).
      * rewrite Hc. eexists _, _. split; [reflexivity|].
        destruct (Hk 0 res eq_refl) as (o' & Ho' & Hr').
        rewrite Nat.add_0_r, Ho in Ho'. simplify_eq. simpl. by rewrite Hr', Hm.
Qed.

Lemma execute_ids {A} `{HasAttrs A} (ident : A -> string) (src : list A)
    (f : nat -> A -> raised + EmbeddingResult) :
  (forall i o, source_id i o = ident o) ->
  (forall i o, src !! i = Some o -> is_cancelled (f i o) = false) ->
  (forall i o r, f i o = inr r -> chunk_id r = ident o) ->
  exists out sm, _execute_embedding_tasks (imap f src) src = inr (out, sm)
                 /\ map chunk_id out = map ident src.
Proof.
  intros Hid Hnc Hf. unfold _execute_embedding_tasks.
  destruct (collect_ids ident src Hid (imap f src) 0) as (out & n & Hc & Hm).
  - by rewrite length_imap.
  - intros k t Ht. rewrite list_lookup_imap in Ht.
    destruct (src !! k) as [o|] eqn:Ho; [|discriminate]. simpl in Ht.
    injection Ht as <-. by apply Hnc.
  - intros k r Hr. rewrite list_lookup_imap in Hr.
    destruct (src !! k) as [o|] eqn:Ho; [|discriminate]. simpl in Hr.
    exists o. split; [done|]. apply (Hf k). congruence.
  - rewrite Hc. eexists _, _. split; [reflexivity|]. exact Hm.
Qed.

(** Where no task is ended by a cancellation, a batch of N content units,
    text chunks or image analyses, comes back as exactly N outcomes, the
    i-th carrying the id of the i-th unit, whatever the service replies
    and whichever tasks raise an [Exception]. *)
Lemma batch_returns_one_outcome_per_unit_unless_cancelled
    (g : Generator) (envs : nat -> TaskEnv) :
  (forall chunks : list DocumentChunk,
     (forall i c, chunks !! i = Some c -> is_cancelled (chunk_task g envs i c) = false) ->
     exists out, generate_embeddings_for_chunks g envs chunks = inr out
                 /\ length out = length chunks
                 /\ map chunk_id out = map id chunks)
  /\ (forall image_analyses : list ImageAnalysis,
     (forall i a, image_analyses !! i = Some a ->
                  is_cancelled (image_task g envs i a) = false) ->
     exists out, generate_embeddings_for_images g envs image_analyses = inr out
                 /\ length out = length image_analyses
                 /\ map chunk_id out = map image_id image_analyses).
Proof.
  split.
  - intros chunks Hnc. unfold generate_embeddings_for_chunks.
    destruct chunks as [|c cs]; [by exists []|].
    destruct (execute_ids id (c :: cs)
                (fun i c => task_result
                   (_generate_single_embedding g (envs i) (content c) (id c) "text")))
      as (out & sm & He & Hm).
    + reflexivity.
    + intros i o Ho. rewrite is_cancelled_task_result. by apply Hnc.
    + intros i o r. apply single_embedding_id.
    + rewrite He. exists out. split; [reflexivity|]. split; [|exact Hm].
      by rewrite <- (length_map chunk_id), Hm, length_map.
  - intros imgs Hnc. unfold generate_embeddings_for_images.
    destruct imgs as [|a l]; [by exists []|].
    destruct (execute_ids image_id (a :: l)
                (fun i a => task_result
                   (_generate_single_embedding g (envs i)
                      (_prepare_image_text_for_embedding a) (image_id a) "image")))
      as (out & sm & He & Hm).
    + reflexivity.
    + intros i o Ho. rewrite is_cancelled_task_result. by apply Hnc.
    + intros i o r. apply single_embedding_id.
    + rewrite He. exists out. split; [reflexivity|]. split; [|exact Hm].
      by rewrite <- (length_map chunk_id), Hm, length_map.
Qed.

(** C2, where the code departs from it.  Two chunks; the task of the
    second is ended by [asyncio.CancelledError], which [gather] hands back
    among the results.  The collecting loop takes it for a returned
    outcome, reads its [success] and raises AttributeError: the batch
    raises and no outcome comes back, not even that of the first chunk,
    whose task had succeeded (run alone, it returns its vector). *)
Theorem C2_cancelled_task_makes_the_batch_raise :
  is_cancelled (chunk_task default_generator second_task_cancelled 1 text_chunk_2) = true
  /\ generate_embeddings_for_chunks default_generator second_task_cancelled
       [text_chunk_1; text_chunk_2]
     = inl no_success_attribute
  /\ generate_embeddings_for_chunks default_generator second_task_cancelled [text_chunk_1]
     = inr [mkResult "report_1_0" sample_vector true "text" None].
Proof. vm_compute. repeat split. Qed.

(** *** The retry loop *)

Lemma attempts_return g env txt item_id ctype m a r evs :
  attempt_body g item_id ctype a (post env a (_prepare_text_for_embedding txt)) = (Return r, evs) ->
  attempts g env txt item_id ctype (S m) a
  = (inr r, Post a (_prepare_text_for_embedding txt) :: evs).
Proof. intros Hb. simpl. by rewrite Hb. Qed.

(** [k] attempts in a row that pause and go on leave [k] rounds in the
    trace and hand over to attempt [a0 + k]. *)
Lemma attempts_rounds g env txt item_id ctype (delay : nat -> Z) k :
  forall m a0,
    (forall a, a0 <= a < a0 + k ->
       attempt_body g item_id ctype a (post env a (_prepare_text_for_embedding txt))
       = (Continue, [Sleep (delay a)])) ->
    attempts g env txt item_id ctype (k + m) a0
    = ((attempts g env txt item_id ctype m (a0 + k)).1,
       rounds delay (_prepare_text_for_embedding txt) a0 k
       ++ (attempts g env txt item_id ctype m (a0 + k)).2).
Proof.
  induction k as [|k IH]; intros m a0 Hc.
  - rewrite Nat.add_0_r. simpl. by destruct (attempts _ _ _ _ _ m a0).
  - change (S k + m) with (S (k + m)). simpl attempts.
    rewrite (Hc a0) by lia.
    rewrite (IH m (S a0)) by (intros a Ha; apply Hc; lia).
    replace (S a0 + k) with (a0 + S k) by lia.
    by rewrite rounds_S.
Qed.

Lemma step_429_retry g item_id ctype a r :
  status r = 429%Z -> a < max_retries g - 1 ->
  attempt_body g item_id ctype a (Responded r)
  = (Continue, [Sleep (Z.min (retry_delay g * 2 ^ Z.of_nat a) 60)]).
Proof.
  intros Hs Ha. unfold attempt_body. rewrite Hs. simpl.
  destruct (Z.ltb_spec (Z.of_nat a) (Z.of_nat (max_retries g) - 1)); [reflexivity|lia].
Qed.

Lemma step_429_last g item_id ctype a r :
  status r = 429%Z -> max_retries g - 1 <= a -> 0 < max_retries g ->
  attempt_body g item_id ctype a (Responded r)
  = (Return (failure item_id ctype ("Rate limit exceeded: " +:+ text r)), []).
Proof.
  intros Hs Ha Hpos. unfold attempt_body. rewrite Hs. simpl.
  destruct (Z.ltb_spec (Z.of_nat a) (Z.of_nat (max_retries g) - 1)); [lia|reflexivity].
Qed.

Lemma step_200_valid g item_id ctype a r d ds emb :
  status r = 200%Z -> json r = inr {| data := Some (d :: ds) |} ->
  item_embedding d = Some emb -> _validate_embedding g emb = true ->
  attempt_body g item_id ctype a (Responded r)
  = (Return (mkResult item_id emb true ctype None), []).
Proof.
  intros Hs Hj Hd Hv. unfold attempt_body. rewrite Hs, Hj. simpl. by rewrite Hd, Hv.
Qed.

Lemma step_other_retry g item_id ctype a r :
  status r <> 200%Z -> status r <> 429%Z -> a < max_retries g - 1 ->
  attempt_body g item_id ctype a (Responded r)
  = (Continue, [Sleep (retry_delay g * 2 ^ Z.of_nat a)]).
Proof.
  intros H200 H429 Ha. unfold attempt_body, backoff_or_fail.
  destruct (Z.eqb_spec (status r) 200); [done|].
  destruct (Z.eqb_spec (status r) 429); [done|].
  destruct (Z.ltb_spec (Z.of_nat a) (Z.of_nat (max_retries g) - 1)); [reflexivity|lia].
Qed.

Lemma step_other_last g item_id ctype a r :
  status r <> 200%Z -> status r <> 429%Z -> max_retries g - 1 <= a -> 0 < max_retries g ->
  attempt_body g item_id ctype a (Responded r)
  = (Return (failure item_id ctype ("HTTP " +:+ pretty (status r) +:+ ": " +:+ text r)), []).
Proof.
  intros H200 H429 Ha Hpos. unfold attempt_body, backoff_or_fail.
  destruct (Z.eqb_spec (status r) 200); [done|].
  destruct (Z.eqb_spec (status r) 429); [done|].
  destruct (Z.ltb_spec (Z.of_nat a) (Z.of_nat (max_retries g) - 1)); [lia|reflexivity].
Qed.






End EmbeddingGenProps.

(** ** The security filter *)

Module FilterProps.

Import World EntraIDAuth OData AuthObs.
Local Open Scope list_scope.

Lemma append_cons a s t : String a s +:+ t = String a (s +:+ t).
Proof. reflexivity. Qed.

Lemma append_assoc (a b c : string) : (a +:+ b) +:+ c = a +:+ (b +:+ c).
Proof. induction a as [|x a IH]; [reflexivity|]. by rewrite !append_cons, IH. Qed.

Lemma length_append (a b : string) :
  String.length (a +:+ b) = String.length a + String.length b.
Proof. induction a as [|x a IH]; [reflexivity|]. rewrite append_cons. simpl. by rewrite IH. Qed.

Lemma strip_prefix_append p s : strip_prefix p (p +:+ s) = Some s.
Proof.
  induction p as [|a p IH]; [reflexivity|].
  rewrite append_cons. simpl. by rewrite Ascii.eqb_refl.
Qed.

(** A quote-free literal is read back whole, up to its closing quote. *)
Lemma read_literal_closed g rest :
  quote_free g = true ->
  read_literal (g +:+ String "'" (String ")" rest)) = Some (g, String ")" rest).
Proof.
  induction g as [|c g IH]; intros Hq.
  - reflexivity.
  - simpl in Hq. apply andb_true_iff in Hq as [Hc Hg].
    rewrite append_cons. simpl.
    apply negb_true_iff in Hc. rewrite Hc. by rewrite IH.
Qed.

Lemma clause_unfold g rest :
  clause g +:+ rest = clause_open +:+ g +:+ String "'" (String ")" rest).
Proof. unfold clause, clause_open. by rewrite !append_assoc. Qed.

Lemma append_nil_r (a : string) : a +:+ "" = a.
Proof. induction a as [|x a IH]; [reflexivity|]. by rewrite append_cons, IH. Qed.

Lemma parse_S n s :
  parse (S n) s
  = match strip_prefix clause_open s with
    | None => None
    | Some s1 =>
      match read_literal s1 with
      | None => None
      | Some (lit, s2) =>
        match strip_prefix ")" s2 with
        | None => None
        | Some EmptyString => Some [lit]
        | Some s3 =>
          match strip_prefix " or " s3 with
          | None => None
          | Some s4 =>
            match parse n s4 with
            | Some lits => Some (lit :: lits)
            | None => None
            end
          end
        end
      end
    end.
Proof. reflexivity. Qed.

Lemma parse_last n g :
  quote_free g = true -> parse (S n) (clause g) = Some [g].
Proof.
  intros Hq. rewrite <- (append_nil_r (clause g)), clause_unfold, parse_S.
  by rewrite strip_prefix_append, read_literal_closed.
Qed.

Lemma parse_more n g rest :
  quote_free g = true ->
  parse (S n) (clause g +:+ " or " +:+ rest)
  = match parse n rest with Some lits => Some (g :: lits) | None => None end.
Proof.
  intros Hq. rewrite clause_unfold, parse_S.
  rewrite strip_prefix_append, read_literal_closed by done.
  change (strip_prefix ")" (String ")" (" or " +:+ rest))) with (Some (" or " +:+ rest)).
  change (" or " +:+ rest) with (String " " (String "o" (String "r" (String " " rest)))).
  reflexivity.
Qed.

Lemma parse_join gs :
  forall n, gs <> [] -> Forall (fun g => quote_free g = true) gs -> length gs <= n ->
            parse n (join " or " (map clause gs)) = Some gs.
Proof.
  induction gs as [|g gs IH]; intros n Hne Hq Hn; [done|].
  apply Forall_cons in Hq as [Hg Hq].
  destruct n as [|n]; [simpl in Hn; lia|].
  destruct gs as [|g2 gs].
  - apply parse_last, Hg.
  - change (join " or " (map clause (g :: g2 :: gs)))
      with (clause g +:+ " or " +:+ join " or " (map clause (g2 :: gs))).
    rewrite parse_more by done.
    rewrite IH; [reflexivity|done|done|simpl in *; lia].
Qed.

Lemma length_join gs :
  length gs <= String.length (join " or " (map clause gs)).
Proof.
  induction gs as [|g gs IH]; [simpl; lia|].
  destruct gs as [|g2 gs].
  - unfold join, clause. simpl String.concat. rewrite length_append. simpl. lia.
  - change (join " or " (map clause (g :: g2 :: gs)))
      with (clause g +:+ " or " +:+ join " or " (map clause (g2 :: gs))).
    rewrite !length_append. unfold clause at 1. rewrite length_append.
    simpl in *. lia.
Qed.

(** The filter built for a non-empty list reads back as that list. *)
Lemma parse_filter gs :
  gs <> [] -> Forall (fun g => quote_free g = true) gs ->
  parse (S (String.length (generate_security_filter gs))) (generate_security_filter gs)
  = Some gs.
Proof.
  intros Hne Hq. destruct gs as [|g gs]; [done|].
  unfold generate_security_filter. fold (clause). apply parse_join; [done|done|].
  etrans; [apply length_join|]. lia.
Qed.

Lemma existsb_elem_of (gs d : list string) :
  existsb (fun l => bool_decide (l ∈ d)) gs = true <-> exists g, g ∈ gs /\ g ∈ d.
Proof.
  rewrite existsb_exists. split.
  - intros (g & Hin & Hd). exists g. split; [by apply list_elem_of_In|].
    by apply bool_decide_eq_true in Hd.
  - intros (g & Hin & Hd). exists g. split; [by apply list_elem_of_In|].
    by apply bool_decide_eq_true.
Qed.

(** C1, as the code has it.  For accessible groups whose ids hold no single
    quote, the filter matches a document exactly when the document's group
    set holds one of the compared values: the groups handed in, or, when
    none are handed in, the sentinel "no-access".  So a non-empty G matches
    exactly the documents whose groups meet G, and an empty G matches no
    document of any set in which no document carries "no-access". *)
Theorem C1_filter_matches_iff_groups_meet
    (user_accessible_groups document_groups : list string) :
  Forall (fun g => quote_free g = true) user_accessible_groups ->
  matches (generate_security_filter user_accessible_groups) document_groups = true
  <-> exists g, g ∈ compared_groups user_accessible_groups /\ g ∈ document_groups.
Proof.
  intros Hq. unfold matches.
  destruct user_accessible_groups as [|g gs].
  - change (parse _ (generate_security_filter [])) with (Some ["no-access"]).
    apply existsb_elem_of.
  - rewrite parse_filter by done. apply existsb_elem_of.
Qed.

(** Accessible groups {A, B}: a document of group B is matched. *)
Lemma C1_filter_matches_witness :
  matches (generate_security_filter ["A"; "B"]) ["B"] = true
  <-> exists g, g ∈ compared_groups ["A"; "B"] /\ g ∈ ["B"].
Proof.
  apply (C1_filter_matches_iff_groups_meet ["A"; "B"] ["B"]).
  repeat constructor.
Defined.

(** C1 as stated fails for the empty set: the filter built for no groups
    matches a document whose groups are {"no-access"}, although the empty
    set meets no group set. *)
Lemma C1_counterexample_sentinel_document :
  matches (generate_security_filter []) ["no-access"] = true
  /\ ~ (exists g, g ∈ @nil string /\ g ∈ ["no-access"]).
Proof.
  split; [reflexivity|]. intros (g & Hg & _). by apply elem_of_nil in Hg.
Qed.

(** The two documents of the specification's example. *)
Lemma filter_example_A_B :
  matches (generate_security_filter ["A"; "B"]) ["B"] = true
  /\ matches (generate_security_filter ["A"; "B"]) ["C"] = false.
Proof. split; reflexivity. Qed.

(** Group ids are pasted into the filter as they are: a quote in an id
    ends the literal early, and the rest of the id is read as filter text. *)
Lemma filter_quote_in_group_id :
  matches (generate_security_filter ["x') or document_groups/any(g: g eq 'C"]) ["C"] = true.
Proof. reflexivity. Qed.

End FilterProps.

(** ** Group resolution and its cache *)

Module AuthProps.

Import World EntraIDAuth AuthObs.
Local Open Scope list_scope.
Local Arguments memberOf_url : simpl never.
Local Arguments cache_key : simpl never.

Lemma bind_inr {A B} (m : M A) (f : A -> M B) s a s' :
  m s = (inr a, s') -> (m ≫= f) s = f a s'.
Proof. intros Hm. unfold mbind, M_bind. by rewrite Hm. Qed.

Lemma bind_inl {A B} (m : M A) (f : A -> M B) s e s' :
  m s = (inl e, s') -> (m ≫= f) s = (inl e, s').
Proof. intros Hm. unfold mbind, M_bind. by rewrite Hm. Qed.

Lemma try_except_inr {A} (m : M A) h s a s' :
  m s = (inr a, s') -> try_except m h s = (inr a, s').
Proof. intros Hm. unfold try_except. by rewrite Hm. Qed.

Lemma try_except_inl {A} (m : M A) h s e s' :
  m s = (inl e, s') -> try_except m h s = h e s'.
Proof. intros Hm. unfold try_except. by rewrite Hm. Qed.

(** A usable entry answers the probe and costs one clock reading. *)
Lemma cached_groups_hit env user_id s c :
  _group_cache s !! cache_key user_id = Some c ->
  (now env (clock_reads s) - timestamp c < _cache_expiry)%Z ->
  cached_groups env (cache_key user_id) s = (inr (Some (groups c)), (datetime_now env s).2).
Proof.
  intros Hc Ht. unfold cached_groups, get_cache, mbind, M_bind. rewrite Hc.
  unfold datetime_now at 1. simpl.
  destruct (Z.ltb_spec (now env (clock_reads s) - timestamp c) _cache_expiry); [done|lia].
Qed.

(** Without one the probe answers nothing and touches only the clock. *)
Lemma cached_groups_miss env user_id s :
  stale_or_absent env user_id s ->
  exists s0, cached_groups env (cache_key user_id) s = (inr None, s0)
    /\ _group_cache s0 = _group_cache s
    /\ clock_reads s0 = clock_reads s + probe_reads user_id s
    /\ token_calls s0 = token_calls s /\ lookups s0 = lookups s
    /\ embed_calls s0 = embed_calls s /\ searches s0 = searches s.
Proof.
  intros Hst. unfold cached_groups, get_cache, mbind, M_bind, probe_reads.
  destruct (_group_cache s !! cache_key user_id) as [c|] eqn:Hc.
  - specialize (Hst c Hc). unfold datetime_now. simpl.
    destruct (Z.ltb_spec (now env (clock_reads s) - timestamp c) _cache_expiry); [lia|].
    eexists. split; [reflexivity|]. simpl. repeat split; lia.
  - eexists. split; [reflexivity|]. repeat split; lia.
Qed.

(** A hit: the cached groups come back; no token, no lookup, no write. *)
Lemma get_user_groups_hit env user_id s c :
  _group_cache s !! cache_key user_id = Some c ->
  (now env (clock_reads s) - timestamp c < _cache_expiry)%Z ->
  get_user_groups env user_id s = (inr (groups c), (datetime_now env s).2).
Proof.
  intros Hc Ht. unfold get_user_groups. fold (cache_key user_id).
  by rewrite (bind_inr _ _ _ _ _ (cached_groups_hit env user_id s c Hc Ht)).
Qed.

(** A miss answered 200: one token, one lookup, and the entry is replaced
    by the fresh groups stamped with the clock reading taken after it. *)
Lemma get_user_groups_fetch env user_id s gs :
  stale_or_absent env user_id s ->
  fetch_ok env user_id s gs ->
  exists s', get_user_groups env user_id s = (inr gs, s')
    /\ _group_cache s'
       = <[cache_key user_id :=
             {| groups := gs;
                timestamp := now env (clock_reads s + probe_reads user_id s) |}]>
           (_group_cache s)
    /\ clock_reads s' = S (clock_reads s + probe_reads user_id s)
    /\ token_calls s' = S (token_calls s)
    /\ lookups s' = lookups s ++ [memberOf_url user_id]
    /\ embed_calls s' = embed_calls s /\ searches s' = searches s.
Proof.
  intros Hst (tok & r & items & Htok & Hget & H200 & Hval & Hex).
  destruct (cached_groups_miss env user_id s Hst)
    as (s0 & Hp & Hcache & Hclock & Htc & Hlk & Hem & Hse).
  unfold get_user_groups. fold (cache_key user_id).
  rewrite (bind_inr _ _ _ _ _ Hp).
  unfold get_access_token, call_acquire_token, call_requests_get, datetime_now,
    set_cache, lift, mbind, M_bind, mret, M_ret. simpl.
  rewrite Htc, Htok. simpl. rewrite Hlk, Hget. simpl. rewrite H200. simpl.
  rewrite Hval. simpl. rewrite Hex. simpl.
  eexists. split; [reflexivity|]. simpl.
  by rewrite ?Hcache, ?Hclock, ?Htc, ?Hlk, ?Hem, ?Hse.
Qed.

(** A miss answered with another status: the call raises, and the cache is
    as it was. *)
Lemma get_user_groups_rejected env user_id s r :
  stale_or_absent env user_id s ->
  fetch_rejected env user_id s r ->
  exists s', get_user_groups env user_id s
             = (inl (Exception ("Failed to get user groups: " +:+ pretty (status_code r)
                                +:+ " - " +:+ response_text r)), s')
    /\ _group_cache s' = _group_cache s
    /\ lookups s' = lookups s ++ [memberOf_url user_id]
    /\ embed_calls s' = embed_calls s /\ searches s' = searches s.
Proof.
  intros Hst (tok & Htok & Hget & H200).
  destruct (cached_groups_miss env user_id s Hst)
    as (s0 & Hp & Hcache & Hclock & Htc & Hlk & Hem & Hse).
  unfold get_user_groups. fold (cache_key user_id).
  rewrite (bind_inr _ _ _ _ _ Hp).
  unfold get_access_token, call_acquire_token, call_requests_get, raise,
    mbind, M_bind, mret, M_ret. simpl.
  rewrite Htc, Htok. simpl. rewrite Hlk, Hget. simpl.
  destruct (Z.eqb_spec (status_code r) 200); [done|].
  eexists. split; [reflexivity|]. simpl. by rewrite ?Hcache, ?Hlk, ?Hem, ?Hse.
Qed.

(** Whatever [get_user_groups] raises, [get_user_accessible_groups] turns
    into the empty list. *)
Lemma accessible_groups_swallows env user_id s e s' :
  get_user_groups env user_id s = (inl e, s') ->
  get_user_accessible_groups env user_id s = (inr [], s').
Proof.
  intros Hg. unfold get_user_accessible_groups.
  by rewrite (try_except_inl _ _ _ _ _ (bind_inl _ _ _ _ _ Hg)).
Qed.

(** Group resolution leaves the embedding and index traffic alone. *)
Lemma get_user_groups_frame env user_id s :
  searches (get_user_groups env user_id s).2 = searches s
  /\ embed_calls (get_user_groups env user_id s).2 = embed_calls s.
Proof.
  unfold get_user_groups, cached_groups, get_access_token, call_acquire_token,
    call_requests_get, datetime_now, set_cache, get_cache, lift, raise,
    mbind, M_bind, mret, M_ret.
  repeat (case_match; simplify_eq; simpl in * ); done.
Qed.

(** [get_user_accessible_groups] always returns a list. *)
Lemma accessible_groups_returns env user_id s :
  exists gs, (get_user_accessible_groups env user_id s).1 = inr gs.
Proof.
  unfold get_user_accessible_groups, try_except, mbind, M_bind, mret, M_ret.
  destruct (get_user_groups env user_id s) as [[e|gs] s']; eauto.
Qed.

Lemma accessible_groups_frame env user_id s :
  searches (get_user_accessible_groups env user_id s).2 = searches s
  /\ embed_calls (get_user_accessible_groups env user_id s).2 = embed_calls s.
Proof.
  pose proof (get_user_groups_frame env user_id s) as Hf.
  unfold get_user_accessible_groups, try_except, mbind, M_bind, mret, M_ret.
  destruct (get_user_groups env user_id s) as [[e|gs] s']; exact Hf.
Qed.

(** C5, as the code has it.  When the group lookup is answered with a
    status other than 200, [get_user_groups] raises to its caller and
    leaves the cache as it was; [get_user_accessible_groups], the operation
    callers use to obtain the accessible groups, catches that exception and
    returns the empty list. *)
Theorem C5_lookup_failure_raised_by_resolver_swallowed_by_accessor
    (env : Env) (user_id : string) (s : State) (r : GraphResponse) :
  stale_or_absent env user_id s ->
  fetch_rejected env user_id s r ->
  exists s',
    get_user_groups env user_id s
    = (inl (Exception ("Failed to get user groups: " +:+ pretty (status_code r)
                       +:+ " - " +:+ response_text r)), s')
    /\ _group_cache s' = _group_cache s
    /\ get_user_accessible_groups env user_id s = (inr [], s').
Proof.
  intros Hst Hrej.
  destruct (get_user_groups_rejected env user_id s r Hst Hrej) as (s' & Hg & Hc & _).
  exists s'. split; [exact Hg|]. split; [exact Hc|].
  eapply accessible_groups_swallows, Hg.
Qed.

(** The identity graph answers 503 for a user nothing is cached for. *)
Lemma C5_lookup_failure_witness :
  exists s',
    get_user_groups (graph_world ten_minutes service_unavailable) "alice" initial
    = (inl (Exception ("Failed to get user groups: " +:+ pretty 503%Z
                       +:+ " - " +:+ "unavailable")), s')
    /\ _group_cache s' = _group_cache initial
    /\ get_user_accessible_groups (graph_world ten_minutes service_unavailable) "alice" initial
       = (inr [], s').
Proof.
  apply (C5_lookup_failure_raised_by_resolver_swallowed_by_accessor
           (graph_world ten_minutes service_unavailable) "alice" initial service_unavailable).
  - intros c Hc. simpl in Hc. rewrite lookup_empty in Hc. discriminate.
  - exists "tok". split; [reflexivity|]. split; [reflexivity|]. simpl. lia.
Defined.

(** C5 as stated fails: with the identity graph answering 503 the
    resolver raises, yet what the caller of [get_user_accessible_groups]
    receives is the empty list, the same value as for a user who belongs
    to no group. *)
Lemma C5_counterexample_failure_looks_like_no_groups :
  (exists e, (get_user_groups (graph_world ten_minutes service_unavailable)
                "alice" initial).1 = inl e)
  /\ (get_user_accessible_groups (graph_world ten_minutes service_unavailable)
        "alice" initial).1 = inr []
  /\ (get_user_accessible_groups (graph_world ten_minutes member_of_nothing)
        "alice" initial).1 = inr [].
Proof.
  split; [eexists; vm_compute; reflexivity|]. split; vm_compute; reflexivity.
Qed.

(** C6.  A resolution that finds nothing usable in the cache and whose
    lookup succeeds issues one lookup and stores the groups, stamped with
    the clock reading taken after the lookup.  At the next resolution for
    the same principal: if the clock reads less than 30 minutes
    (30 * 60 * 1000000 microseconds) past that stamp, the stored groups
    are returned and no token or lookup is requested, so the two
    resolutions have issued exactly one lookup; if it reads 30 minutes or
    more past the stamp, a new lookup is issued and, when it succeeds, its
    groups and a new stamp replace the entry. *)
Theorem C6_group_cache_one_lookup_within_ttl
    (env : Env) (user_id : string) (s : State) (gs1 : list string) :
  stale_or_absent env user_id s ->
  fetch_ok env user_id s gs1 ->
  exists s1 t1,
    get_user_groups env user_id s = (inr gs1, s1)
    /\ lookups s1 = lookups s ++ [memberOf_url user_id]
    /\ t1 = now env (clock_reads s + probe_reads user_id s)
    /\ _group_cache s1 !! cache_key user_id = Some {| groups := gs1; timestamp := t1 |}
    /\ ((now env (clock_reads s1) - t1 < 30 * 60 * 1000000)%Z ->
        exists s2,
          get_user_groups env user_id s1 = (inr gs1, s2)
          /\ lookups s2 = lookups s ++ [memberOf_url user_id]
          /\ token_calls s2 = token_calls s1
          /\ _group_cache s2 = _group_cache s1)
    /\ ((30 * 60 * 1000000 <= now env (clock_reads s1) - t1)%Z ->
        forall gs2, fetch_ok env user_id s1 gs2 ->
          exists s2,
            get_user_groups env user_id s1 = (inr gs2, s2)
            /\ lookups s2 = lookups s ++ [memberOf_url user_id; memberOf_url user_id]
            /\ _group_cache s2 !! cache_key user_id
               = Some {| groups := gs2; timestamp := now env (S (clock_reads s1)) |}).
Proof.
  intros Hst Hok.
  destruct (get_user_groups_fetch env user_id s gs1 Hst Hok)
    as (s1 & Hg & Hcache & Hclock & Htc & Hlk & _).
  set (t1 := now env (clock_reads s + probe_reads user_id s)) in *.
  assert (He : _group_cache s1 !! cache_key user_id
               = Some {| groups := gs1; timestamp := t1 |}).
  { rewrite Hcache. apply lookup_insert_eq. }
  exists s1, t1. split; [exact Hg|]. split; [exact Hlk|]. split; [reflexivity|].
  split; [exact He|]. split.
  - intros Hin.
    assert (Hin' : (now env (clock_reads s1) - timestamp {| groups := gs1; timestamp := t1 |}
                    < _cache_expiry)%Z) by (unfold _cache_expiry; simpl; lia).
    eexists. split; [apply (get_user_groups_hit env user_id s1 _ He Hin')|].
    simpl. by rewrite Hlk.
  - intros Hout gs2 Hok2.
    assert (Hst1 : stale_or_absent env user_id s1).
    { intros c Hc. rewrite He in Hc. injection Hc as <-. unfold _cache_expiry. simpl. lia. }
    destruct (get_user_groups_fetch env user_id s1 gs2 Hst1 Hok2)
      as (s2 & Hg2 & Hcache2 & _ & _ & Hlk2 & _).
    exists s2. split; [exact Hg2|]. split.
    + rewrite Hlk2, Hlk, <- app_assoc. reflexivity.
    + rewrite Hcache2. unfold probe_reads. rewrite He, Nat.add_1_r.
      apply lookup_insert_eq.
Qed.

(** Nothing cached for alice; the graph lists her in g2.  With clock
    readings ten minutes apart, the second resolution is answered from the
    cache: one token and one lookup in all.  With readings forty minutes
    apart, it asks the graph again: two lookups. *)
Lemma C6_group_cache_witness :
  (exists s1 s2,
     get_user_groups (graph_world ten_minutes member_of_g2) "alice" initial = (inr ["g2"], s1)
     /\ get_user_groups (graph_world ten_minutes member_of_g2) "alice" s1 = (inr ["g2"], s2)
     /\ lookups s2 = [memberOf_url "alice"]
     /\ token_calls s2 = 1)
  /\ (exists s1 s2,
     get_user_groups (graph_world (4 * ten_minutes) member_of_g2) "alice" initial
     = (inr ["g2"], s1)
     /\ get_user_groups (graph_world (4 * ten_minutes) member_of_g2) "alice" s1
        = (inr ["g2"], s2)
     /\ lookups s2 = [memberOf_url "alice"; memberOf_url "alice"]).
Proof.
  split.
  - destruct (C6_group_cache_one_lookup_within_ttl
                (graph_world ten_minutes member_of_g2) "alice" initial ["g2"])
      as (s1 & t1 & Hg & Hlk & Ht & He & Hin & _).
    + intros c Hc. simpl in Hc. rewrite lookup_empty in Hc. discriminate.
    + exists "tok", member_of_g2. eexists. repeat (split; [reflexivity|]). reflexivity.
    + assert (Hs1 : clock_reads s1 = 1 /\ token_calls s1 = 1).
      { vm_compute in Hg. injection Hg as <-. by split. }
      destruct Hs1 as [Hc1 Htc1].
      destruct Hin as (s2 & Hg2 & Hlk2 & Htc2 & _).
      { rewrite Hc1, Ht. vm_compute. reflexivity. }
      exists s1, s2. split; [exact Hg|]. split; [exact Hg2|]. split; [exact Hlk2|]. congruence.
  - destruct (C6_group_cache_one_lookup_within_ttl
                (graph_world (4 * ten_minutes) member_of_g2) "alice" initial ["g2"])
      as (s1 & t1 & Hg & Hlk & Ht & He & _ & Hout).
    + intros c Hc. simpl in Hc. rewrite lookup_empty in Hc. discriminate.
    + exists "tok", member_of_g2. eexists. repeat (split; [reflexivity|]). reflexivity.
    + assert (Hs1 : clock_reads s1 = 1).
      { vm_compute in Hg. by injection Hg as <-. }
      destruct (Hout) with (gs2 := ["g2"]) as (s2 & Hg2 & Hlk2 & _).
      { rewrite Hs1, Ht. vm_compute. discriminate. }
      { exists "tok", member_of_g2. eexists. repeat (split; [reflexivity|]). reflexivity. }
      exists s1, s2. split; [exact Hg|]. split; [exact Hg2|]. exact Hlk2.
Defined.

(** Two resolutions ten minutes apart: one lookup.  Forty minutes apart:
    two lookups. *)
Lemma group_cache_two_resolutions_example :
  let run step :=
    (get_user_groups (graph_world step member_of_g2) "alice"
       (get_user_groups (graph_world step member_of_g2) "alice" initial).2) in
  ((run ten_minutes).1 = inr ["g2"] /\ length (lookups (run ten_minutes).2) = 1)
  /\ ((run (4 * ten_minutes)%Z).1 = inr ["g2"]
      /\ length (lookups (run (4 * ten_minutes)%Z).2) = 2).
Proof. vm_compute. repeat split. Qed.

(** C10.  With an empty list of required groups [validate_user_access]
    returns True and leaves the whole state as it was: no clock reading,
    no token request, no group lookup.  This holds in every world, also in
    one where the user's groups cannot be resolved and any non-empty
    requirement is therefore denied. *)
Theorem C10_no_required_groups_grants_access_without_lookup
    (env : Env) (user_id : string) (s : State) :
  validate_user_access env user_id [] s = (inr true, s)
  /\ (forall g gs e s',
        get_user_groups env user_id s = (inl e, s') ->
        validate_user_access env user_id (g :: gs) s = (inr false, s')).
Proof.
  split; [reflexivity|].
  intros g gs e s' Hg. unfold validate_user_access.
  by rewrite (try_except_inl _ _ _ _ _ (bind_inl _ _ _ _ _ Hg)).
Qed.

End AuthProps.

(** ** The search gateway *)

Module SearchProps.

Import World EntraIDAuth SecureSearch AuthObs SearchObs AuthProps.
Local Open Scope list_scope.

(** The text mode issues its one query and returns what the index gives. *)
Lemma text_search_run env query filter_expression top itc facets s :
  exists s',
    _text_search env query filter_expression top itc facets s
    = (match search env (length (searches s))
               (text_request query filter_expression top itc facets) with
       | inl e => inl e
       | inr page => inr (_process_search_results page)
       end, s')
    /\ searches s' = searches s ++ [text_request query filter_expression top itc facets]
    /\ embed_calls s' = embed_calls s.
Proof.
  unfold _text_search, call_search, mbind, M_bind, mret, M_ret. fold selected.
  fold (text_request query filter_expression top itc facets).
  destruct (search env _ _) as [e|page]; eexists; (split; [reflexivity|done]).
Qed.

(** C7, as the code has it.  When the call for the query embedding
    returns a failure outcome, the hybrid mode runs the text mode instead:
    it sends the index one query, carrying the query text and no vector,
    and returns the results of that query; the vector mode raises and
    sends the index nothing.  When the call for the query embedding
    raises, there is no fallback: the hybrid mode raises the same
    exception, as the vector mode does, and the index is not queried. *)
Theorem C7_hybrid_falls_back_unless_embedding_raises
    (env : Env) (query filter_expression : string) (top : Z)
    (include_total_count : bool) (facets : option (list string)) (s : State) :
  match generate_embedding env (length (embed_calls s)) query with
  | inr r =>
    success r = false ->
    (_hybrid_search env query filter_expression top include_total_count facets s
     = _text_search env query filter_expression top include_total_count facets
         (call_generate_embedding env query s).2)
    /\ (exists s',
          _hybrid_search env query filter_expression top include_total_count facets s
          = (match search env (length (searches s))
                     (text_request query filter_expression top include_total_count facets) with
             | inl e => inl e
             | inr page => inr (_process_search_results page)
             end, s')
          /\ searches s'
             = searches s
               ++ [text_request query filter_expression top include_total_count facets])
    /\ (exists s',
          _vector_search env query filter_expression top include_total_count facets s
          = (inl (Exception ("Failed to generate embedding: "
                             +:+ default "None" (World.error r))), s')
          /\ searches s' = searches s)
  | inl e =>
    (exists s',
       _hybrid_search env query filter_expression top include_total_count facets s
       = (inl e, s')
       /\ searches s' = searches s)
    /\ (exists s',
          _vector_search env query filter_expression top include_total_count facets s
          = (inl e, s')
          /\ searches s' = searches s)
  end.
Proof.
  destruct (generate_embedding env (length (embed_calls s)) query) as [e|r] eqn:Hemb.
  - unfold _hybrid_search, _vector_search, call_generate_embedding, mbind, M_bind.
    rewrite Hemb. split; eexists; (split; [reflexivity|reflexivity]).
  - intros Hfail.
    assert (Hcall : call_generate_embedding env query s
                    = (inr r, (call_generate_embedding env query s).2)).
    { unfold call_generate_embedding. by rewrite Hemb. }
    assert (Hhyb : _hybrid_search env query filter_expression top include_total_count facets s
                   = _text_search env query filter_expression top include_total_count facets
                       (call_generate_embedding env query s).2).
    { unfold _hybrid_search. rewrite (bind_inr _ _ _ _ _ Hcall). by rewrite Hfail. }
    split; [exact Hhyb|]. split.
    + destruct (text_search_run env query filter_expression top include_total_count facets
                  (call_generate_embedding env query s).2) as (s' & Hrun & Hs & _).
      exists s'. rewrite Hhyb. split; [exact Hrun|exact Hs].
    + eexists. split.
      * unfold _vector_search. rewrite (bind_inr _ _ _ _ _ Hcall). rewrite Hfail. reflexivity.
      * reflexivity.
Qed.

(** The embedding call returns a failure outcome; the index has one hit. *)
Lemma C7_hybrid_falls_back_witness :
  (_hybrid_search embedding_down_world "budget" "f" 5 false None initial
   = _text_search embedding_down_world "budget" "f" 5 false None
       (call_generate_embedding embedding_down_world "budget" initial).2)
  /\ (exists s',
        _hybrid_search embedding_down_world "budget" "f" 5 false None initial
        = (match search embedding_down_world (length (searches initial))
                   (text_request "budget" "f" 5 false None) with
           | inl e => inl e
           | inr page => inr (_process_search_results page)
           end, s')
        /\ searches s' = searches initial ++ [text_request "budget" "f" 5 false None])
  /\ (exists s',
        _vector_search embedding_down_world "budget" "f" 5 false None initial
        = (inl (Exception ("Failed to generate embedding: "
                           +:+ default "None" (World.error embedding_refused))), s')
        /\ searches s' = searches initial).
Proof.
  exact (C7_hybrid_falls_back_unless_embedding_raises
           embedding_down_world "budget" "f" 5 false None initial eq_refl).
Defined.

(** C7 as stated fails when the embedding call fails by raising: the
    index would answer the text query with a hit, but the hybrid mode
    raises, and through the gateway the hybrid search comes back with no
    hit and the error text. *)
Lemma C7_counterexample_embedding_raises :
  (_hybrid_search embedding_raises_world "budget" "f" 5 false None initial).1
  = inl (Exception "embedding service down")
  /\ searches (_hybrid_search embedding_raises_world "budget" "f" 5 false None initial).2 = []
  /\ (exists res,
        (_text_search embedding_raises_world "budget" "f" 5 false None initial).1 = inr res
        /\ length (results res) = 1)
  /\ (exists res,
        (search_with_permissions embedding_raises_world "budget" "alice" "hybrid"
           5 false None None initial).1 = inr res
        /\ results res = [] /\ error res = Some "embedding service down")
  /\ (exists res,
        (search_with_permissions embedding_raises_world "budget" "alice" "text"
           5 false None None initial).1 = inr res
        /\ length (results res) = 1 /\ error res = None).
Proof.
  split; [vm_compute; reflexivity|]. split; [vm_compute; reflexivity|].
  split; [|split]; eexists; vm_compute; repeat split.
Qed.

(** Through the gateway, in the same world: the hybrid search returns the
    hit, the vector search returns no result and an error text. *)
Lemma gateway_hybrid_and_vector_example :
  let run mode := (search_with_permissions embedding_down_world "budget" "alice" mode
                     5 false None None initial).1 in
  (exists res, run "hybrid" = inr res /\ length (results res) = 1 /\ error res = None)
  /\ (exists res, run "vector" = inr res /\ results res = []
                  /\ error res = Some "Failed to generate embedding: Rate limit exceeded").
Proof. split; eexists; vm_compute; repeat split. Qed.

(** If the embedding call itself raises, both modes raise. *)
Lemma hybrid_raises_when_embedding_raises env query filter_expression top itc facets s e :
  generate_embedding env (length (embed_calls s)) query = inl e ->
  (_hybrid_search env query filter_expression top itc facets s).1 = inl e
  /\ (_vector_search env query filter_expression top itc facets s).1 = inl e.
Proof.
  intros Hemb. unfold _hybrid_search, _vector_search, call_generate_embedding, mbind, M_bind.
  by rewrite Hemb.
Qed.

(** The gateway hands every exception back as a result with no hits. *)
Lemma search_with_permissions_never_raises
    env query user_id search_type top itc facets filter_expression s :
  exists res, (search_with_permissions env query user_id search_type top itc facets
                 filter_expression s).1 = inr res.
Proof.
  unfold search_with_permissions, try_except.
  match goal with |- context [match ?m s with _ => _ end] => destruct (m s) as [[e|res] s'] end;
    eexists; reflexivity.
Qed.



End SearchProps.

(** ** The index publisher *)

Module UploadProps.

Import World SearchUploader UploadObs.
Local Open Scope list_scope.

(** The preparing loop keeps the publishable chunks, counts the others and
    warns about each of them. *)
Lemma prepare_spec m chunks :
  prepare m chunks
  = (omap (publishable m) chunks,
     length (List.filter (unembedded m) chunks),
     map SkippingChunk (map id (List.filter (unembedded m) chunks))).
Proof.
  induction chunks as [|c cs IH]; [reflexivity|].
  simpl. rewrite IH. unfold unembedded, publishable.
  destruct (m !! id c) as [e|]; [destruct (success e)|]; reflexivity.
Qed.

Lemma nothing_publishable chunks : omap (publishable ∅) chunks = [].
Proof.
  induction chunks as [|c cs IH]; [reflexivity|].
  simpl. unfold publishable at 1. by rewrite lookup_empty.
Qed.

Lemma skip_warnings_app l1 l2 : skip_warnings (l1 ++ l2) = skip_warnings l1 ++ skip_warnings l2.
Proof. apply omap_app. Qed.

Lemma completions_app l1 l2 : completions (l1 ++ l2) = completions l1 ++ completions l2.
Proof. apply omap_app. Qed.

Lemma skip_warnings_skipping ids : skip_warnings (map SkippingChunk ids) = ids.
Proof. induction ids as [|i ids IH]; [reflexivity|]. simpl. unfold skip_warnings in *. simpl. by rewrite IH. Qed.

Lemma completions_skipping ids : completions (map SkippingChunk ids) = [].
Proof. induction ids as [|i ids IH]; [reflexivity|]. exact IH. Qed.

Lemma batch_lines_silent lg :
  Forall (fun e => batch_line e = true) lg -> skip_warnings lg = [] /\ completions lg = [].
Proof.
  induction 1 as [|e lg He _ [IH1 IH2]]; [done|].
  split.
  - rewrite <- IH1. by destruct e.
  - rewrite <- IH2. by destruct e.
Qed.

Lemma tally_lines rs : Forall (fun e => batch_line e = true) (tally rs).2.
Proof.
  induction rs as [|r rs IH]; [constructor|].
  simpl. destruct (tally rs) as [rep lg]. destruct (succeeded r); simpl in *; [done|].
  by constructor.
Qed.

Lemma upload_batch_lines api docs n :
  Forall (fun e => batch_line e = true) (_upload_batch api docs n).2.
Proof.
  unfold _upload_batch. destruct (api n docs) as [e|rs].
  - repeat constructor.
  - pose proof (tally_lines rs) as Ht. destruct (tally rs) as [rep lg]. simpl in *.
    constructor; [done|]. apply Forall_app. split; [done|]. by repeat constructor.
Qed.

(** The batch loop hands the service the slices at the given starts, and
    logs batch lines only. *)
Lemma upload_batches_spec api docs starts :
  forall acc,
    sent (upload_batches api docs starts acc).2
    = map (fun i => take batch_size (drop i docs)) starts
    /\ Forall (fun e => batch_line e = true) (log (upload_batches api docs starts acc).2).
Proof.
  induction starts as [|i starts IH]; intros acc; [by split|].
  simpl.
  pose proof (upload_batch_lines api (take batch_size (drop i docs)) (i / batch_size + 1)) as Hb.
  destruct (_upload_batch api _ _) as [b lg].
  match goal with |- context [upload_batches api docs starts ?a] =>
    destruct (IH a) as [Hs Hl]; destruct (upload_batches api docs starts a) as [final tr] end.
  simpl in *. split; [by rewrite Hs|]. apply Forall_app. by split.
Qed.

Lemma concat_slices {A} (l : list A) (b m : nat) :
  concat (map (fun i => take b (drop i l)) (map (fun k => k * b) (seq 0 m))) = take (m * b) l.
Proof.
  induction m as [|m IH]; [reflexivity|].
  rewrite seq_S, !map_app, concat_app, IH. simpl.
  rewrite app_nil_r, take_take_drop. f_equal. lia.
Qed.

(** The slices the batch loop takes make up the whole list. *)
Lemma concat_batches {A} (l : list A) :
  concat (map (fun i => take batch_size (drop i l)) (batch_starts (length l))) = l.
Proof.
  unfold batch_starts. rewrite concat_slices. apply take_ge.
  unfold batch_size.
  pose proof (Nat.div_mod_eq (length l + 100 - 1) 100) as Hd.
  pose proof (Nat.mod_upper_bound (length l + 100 - 1) 100) as Hm.
  lia.
Qed.



(** One chunk embedded, one not: one document goes out; the report counts
    the upload alone, the log names the skipped chunk and counts it. *)
Lemma upload_one_of_two_example :
  let run := upload_documents accepting [chunk_1; chunk_2]
               [embedded "report_0"; not_embedded "report_1"] in
  map (map d_id) (sent run.2) = [["report_0"]]
  /\ run.1 = {| r_success := 1; r_failed := 0; r_errors := [] |}
  /\ skip_warnings (log run.2) = ["report_1"]
  /\ completions (log run.2) = [(1, 1, 0, 1)].
Proof. vm_compute. repeat split. Qed.

(** Every outcome failed: nothing goes out and the report counts every
    chunk as failed. *)
Lemma upload_none_embedded_example :
  (upload_documents accepting [chunk_1; chunk_2]
     [not_embedded "report_0"; not_embedded "report_1"]).1
  = {| r_success := 0; r_failed := 2; r_errors := ["No valid documents"] |}.
Proof. vm_compute. reflexivity. Qed.

End UploadProps.

(** ** The embedding client: bounds and shapes *)

Module EmbeddingMore.

Import EmbeddingGen EmbeddingObs EmbeddingShape EmbeddingGenProps.
Local Open Scope list_scope.

Lemma pow2_S (a : nat) : (2 ^ Z.of_nat (S a) = 2 * 2 ^ Z.of_nat a)%Z.
Proof. rewrite Nat2Z.inj_succ. apply Z.pow_succ_r. lia. Qed.

Lemma pow2_pos (a : nat) : (0 < 2 ^ Z.of_nat a)%Z.
Proof. apply Z.pow_pos_nonneg; lia. Qed.

Lemma pow2_mono (a b : nat) : a <= b -> (2 ^ Z.of_nat a <= 2 ^ Z.of_nat b)%Z.
Proof. intros Hab. apply Z.pow_le_mono_r; lia. Qed.

(** One attempt either leaves no pause behind, or it goes on after one
    pause of at most [retry_delay * 2 ** attempt], and then it is not the
    last attempt. *)
Lemma attempt_body_events g item_id ctype a o st evs :
  attempt_body g item_id ctype a o = (st, evs) ->
  evs = []
  \/ (exists d, evs = [Sleep d] /\ st = Continue /\ a < max_retries g - 1
                /\ (d = (retry_delay g * 2 ^ Z.of_nat a)%Z
                    \/ d = Z.min (retry_delay g * 2 ^ Z.of_nat a) 60)).
Proof.
  unfold attempt_body, backoff_or_fail. intros Hb.
  repeat case_match; simplify_eq; try (left; reflexivity).
  all: right; eexists; split; [reflexivity|]; split; [reflexivity|].
  all: split; [|auto].
  all: match goal with H : Z.ltb _ _ = true |- _ => apply Z.ltb_lt in H; lia end.
Qed.

Lemma posts_cons_post a i evs : posts (Post a i :: evs) = S (posts evs).
Proof. reflexivity. Qed.

Lemma sleeps_cons_post a i evs : sleeps (Post a i :: evs) = sleeps evs.
Proof. reflexivity. Qed.

Lemma posts_nil : posts [] = 0.
Proof. reflexivity. Qed.

Lemma sleeps_nil : sleeps [] = [].
Proof. reflexivity. Qed.

Lemma posts_cons_sleep d evs : posts (Sleep d :: evs) = posts evs.
Proof. reflexivity. Qed.

Lemma sleeps_cons_sleep d evs : sleeps (Sleep d :: evs) = d :: sleeps evs.
Proof. reflexivity. Qed.

Lemma attempts_S g env txt item_id ctype k a :
  attempts g env txt item_id ctype (S k) a
  = match attempt_body g item_id ctype a (post env a (_prepare_text_for_embedding txt)) with
    | (Return r, evs) => (inr r, Post a (_prepare_text_for_embedding txt) :: evs)
    | (Continue, evs) =>
      ((attempts g env txt item_id ctype k (S a)).1,
       Post a (_prepare_text_for_embedding txt) :: evs
       ++ (attempts g env txt item_id ctype k (S a)).2)
    | (Escape msg, evs) => (inl msg, Post a (_prepare_text_for_embedding txt) :: evs)
    end.
Proof.
  simpl. destruct (attempt_body _ _ _ _ _) as [[r| |msg] evs]; [reflexivity| |reflexivity].
  by destruct (attempts g env txt item_id ctype k (S a)).
Qed.

(** Only an interrupted request makes an attempt let a cancellation
    through. *)
Lemma attempt_body_escape g item_id ctype a o msg evs :
  attempt_body g item_id ctype a o = (Escape msg, evs) -> o = Interrupted msg.
Proof.
  unfold attempt_body, backoff_or_fail. intros Hb.
  repeat case_match; simplify_eq; reflexivity.
Qed.

Lemma attempts_escape g env txt item_id ctype msg :
  forall n a,
    (attempts g env txt item_id ctype n a).1 = inl msg ->
    exists a', a <= a' < a + n
               /\ post env a' (_prepare_text_for_embedding txt) = Interrupted msg.
Proof.
  induction n as [|n IH]; intros a; [discriminate|].
  rewrite attempts_S. destruct (attempt_body _ _ _ _ _) as [[r| |msg'] evs] eqn:Hb; cbn [fst].
  - discriminate.
  - intros Hrest. destruct (IH (S a) Hrest) as (a' & Ha' & Hp). exists a'. split; [lia|done].
  - intros [= ->]. exists a. split; [lia|]. eapply attempt_body_escape, Hb.
Qed.

(** The loop from attempt [a] with [n] attempts left, [n + a] being the
    configured number: at most [n] requests, fewer pauses than attempts,
    and the pauses add up to at most what the backoff schedule allows. *)
Lemma attempts_bounds g env txt item_id ctype :
  forall n a, n + a = max_retries g ->
    posts (attempts g env txt item_id ctype n a).2 <= n
    /\ length (sleeps (attempts g env txt item_id ctype n a).2) <= n - 1
    /\ ((0 <= retry_delay g)%Z -> 0 < n ->
        (0 <= total_pause (attempts g env txt item_id ctype n a).2
         /\ total_pause (attempts g env txt item_id ctype n a).2
            + retry_delay g * 2 ^ Z.of_nat a
            <= retry_delay g * 2 ^ Z.of_nat (max_retries g - 1))%Z).
Proof.
  induction n as [|k IH]; intros a Hna.
  - simpl. unfold posts, sleeps. simpl. split; [lia|]. split; [lia|]. intros _ Hn. lia.
  - rewrite attempts_S.
    destruct (attempt_body _ _ _ _ _) as [st evs] eqn:Hb.
    apply attempt_body_events in Hb as He.
    destruct (IH (S a)) as (IHp & IHs & IHt); [lia|].
    assert (Hlast : (0 <= retry_delay g)%Z ->
                    (retry_delay g * 2 ^ Z.of_nat a
                     <= retry_delay g * 2 ^ Z.of_nat (max_retries g - 1))%Z).
    { intros Hrd. apply Z.mul_le_mono_nonneg_l; [done|]. apply pow2_mono. lia. }
    destruct He as [->|(d & -> & -> & Ha & Hd)].
    + destruct st as [r| |msg]; cbn [fst snd]; unfold total_pause in *;
        rewrite ?app_nil_l, ?posts_cons_post, ?sleeps_cons_post, ?posts_nil, ?sleeps_nil.
      * simpl. split; [lia|]. split; [lia|].
        intros Hrd _. specialize (Hlast Hrd). lia.
      * split; [lia|]. split; [lia|].
        intros Hrd _. specialize (Hlast Hrd).
        destruct k as [|k]; [simpl; lia|].
        destruct (IHt Hrd) as [IH0 IH1]; [lia|].
        rewrite pow2_S in IH1. pose proof (pow2_pos a). nia.
      * simpl. split; [lia|]. split; [lia|].
        intros Hrd _. specialize (Hlast Hrd). lia.
    + cbn [fst snd]. unfold total_pause in *.
      change ([Sleep d] ++ ?l) with (Sleep d :: l).
      rewrite posts_cons_post, sleeps_cons_post, posts_cons_sleep, sleeps_cons_sleep.
      simpl length. simpl foldr.
      split; [lia|]. split; [lia|].
      intros Hrd _.
      destruct (IHt Hrd) as [IH0 IH1]; [lia|].
      rewrite pow2_S in IH1. pose proof (pow2_pos a).
      assert (0 <= d <= retry_delay g * 2 ^ Z.of_nat a)%Z by (destruct Hd as [->| ->]; nia).
      lia.
Qed.

(** X1.  A call that returns has sent at most [max_retries] requests and
    has paused fewer times than it has attempts, whatever the service
    replied.  A call raises in two cases only: acquiring the session
    raised, and that is what it raises; or the task was cancelled at one
    of its at most [max_retries] attempts (while the request, or the
    pause before it, was awaited), and it raises that [CancelledError]. *)
Theorem single_embedding_request_bound
    (g : Generator) (env : TaskEnv) (txt item_id ctype : string) :
  match _generate_single_embedding g env txt item_id ctype with
  | inl x =>
    get_session env = Some x
    \/ (get_session env = None
        /\ exists a msg,
             a < max_retries g
             /\ post env a (_prepare_text_for_embedding txt) = Interrupted msg
             /\ x = Cancelled msg)
  | inr (r, evs) =>
    get_session env = None
    /\ posts evs <= max_retries g
    /\ length (sleeps evs) <= max_retries g - 1
  end.
Proof.
  unfold _generate_single_embedding. destruct (get_session env) as [x|]; [by left|].
  destruct (attempts_bounds g env txt item_id ctype (max_retries g) 0) as (Hp & Hs & _); [lia|].
  destruct (attempts g env txt item_id ctype (max_retries g) 0) as [[msg|r] evs] eqn:Hrun.
  - right. split; [done|].
    destruct (attempts_escape g env txt item_id ctype msg (max_retries g) 0)
      as (a & Ha & Hpost); [by rewrite Hrun|].
    exists a, msg. split; [lia|done].
  - by split.
Qed.

(** X2.  With a non-negative base delay, the pauses of one call add up to
    at most [retry_delay * (2 ** (max_retries - 1) - 1)] seconds, whatever
    the service replies: 3 seconds as configured. *)
Theorem single_embedding_total_pause_bound
    (g : Generator) (env : TaskEnv) (txt item_id ctype : string)
    (r : EmbeddingResult) (evs : list event) :
  (0 <= retry_delay g)%Z ->
  _generate_single_embedding g env txt item_id ctype = inr (r, evs) ->
  (0 <= total_pause evs
   /\ total_pause evs <= retry_delay g * (2 ^ Z.of_nat (max_retries g - 1) - 1))%Z.
Proof.
  intros Hrd. unfold _generate_single_embedding.
  destruct (get_session env); [discriminate|].
  destruct (attempts g env txt item_id ctype (max_retries g) 0) as [[msg|r'] evs'] eqn:Hrun;
    [discriminate|].
  intros [= -> ->].
  destruct (max_retries g) as [|k] eqn:Hmax.
  - simpl in Hrun. injection Hrun as <- <-. unfold total_pause. simpl. lia.
  - destruct (attempts_bounds g env txt item_id ctype (S k) 0) as (_ & _ & Ht); [lia|].
    rewrite Hrun in Ht. cbn [snd] in Ht. destruct Ht as [H0 H1]; [done|lia|].
    rewrite Hmax in H1. change (2 ^ Z.of_nat 0)%Z with 1%Z in H1. lia.
Qed.

(** Five 429 replies, then a 200: the configured client has paused
    1 + 2 seconds, within the bound of 3. *)
Lemma single_embedding_total_pause_witness :
  (0 <= total_pause
          (rounds (fun a => Z.min (1 * 2 ^ Z.of_nat a) 60) "doc" 0 2 ++ [Post 2 "doc"])
   /\ total_pause
          (rounds (fun a => Z.min (1 * 2 ^ Z.of_nat a) 60) "doc" 0 2 ++ [Post 2 "doc"])
      <= retry_delay default_generator
         * (2 ^ Z.of_nat (max_retries default_generator - 1) - 1))%Z.
Proof.
  apply (single_embedding_total_pause_bound default_generator five_429_then_200
           "doc" "chunk-1" "text"
           (failure "chunk-1" "text" "Rate limit exceeded: slow down")).
  - simpl. lia.
  - vm_compute. reflexivity.
Defined.

(** *** Shapes of outcomes *)

Lemma validate_true g emb :
  _validate_embedding g emb = true ->
  emb <> [] /\ length emb = vector_dimensions g
  /\ Forall (fun x => invalid_component x = false) emb.
Proof.
  unfold _validate_embedding. destruct emb as [|x emb]; [discriminate|].
  destruct (Nat.eqb_spec (length (x :: emb)) (vector_dimensions g)) as [Hlen|]; [|discriminate].
  simpl negb. cbv iota.
  destruct (existsb invalid_component (x :: emb)) eqn:Hex; [discriminate|].
  intros _. split; [done|]. split; [exact Hlen|].
  apply Forall_forall. intros y Hy. apply list_elem_of_In in Hy.
  destruct (invalid_component y) eqn:Hinv; [|reflexivity].
  assert (existsb invalid_component (x :: emb) = true) as Habs
    by (apply existsb_exists; eauto).
  congruence.
Qed.

Lemma failure_well_formed g item_id ctype err : well_formed g (failure item_id ctype err).
Proof. unfold well_formed, failure. simpl. eauto. Qed.

Lemma attempt_body_well_formed g item_id ctype a o r evs :
  attempt_body g item_id ctype a o = (Return r, evs) -> well_formed g r.
Proof.
  unfold attempt_body, backoff_or_fail. intros Hb.
  repeat case_match; simplify_eq; try apply failure_well_formed.
  unfold well_formed. simpl.
  match goal with H : _validate_embedding _ _ = true |- _ =>
    apply validate_true in H as (? & ? & ?) end.
  done.
Qed.

Lemma attempts_well_formed g env txt item_id ctype n a r :
  (attempts g env txt item_id ctype n a).1 = inr r -> well_formed g r.
Proof.
  revert a. induction n as [|n IH]; intros a.
  - intros [= <-]. apply failure_well_formed.
  - rewrite attempts_S. destruct (attempt_body _ _ _ _ _) as [[r'| |msg] evs] eqn:Hb; cbn [fst].
    + intros [= <-]. eapply attempt_body_well_formed, Hb.
    + apply IH.
    + discriminate.
Qed.

(** What the collecting loop puts at each position. *)
Lemma collect_lookup {A} `{HasAttrs A} (src : list A) tasks :
  forall i out n,
    collect src i tasks = inr (out, n) ->
    forall k,
      out !! k
      = match tasks !! k with
        | Some (inl (Exc e)) =>
          (fun o => mkResult (source_id (i + k) o) [] false "text" (Some (str e)))
            <$> src !! (i + k)
        | Some (inl (Cancelled _)) => None
        | Some (inr r) => Some r
        | None => None
        end.
Proof.
  induction tasks as [|t ts IH]; intros i out n Hc k.
  - simpl in Hc. injection Hc as <- <-. by rewrite !lookup_nil.
  - simpl in Hc. destruct t as [[e|msg]|res]; [| discriminate |].
    + destruct (src !! i) as [o|] eqn:Ho; [|discriminate].
      destruct (collect src (S i) ts) as [e'|[out' n']] eqn:Hrest; [discriminate|].
      injection Hc as <- <-. destruct k as [|k].
      * simpl. by rewrite Nat.add_0_r, Ho.
      * simpl. rewrite (IH _ _ _ Hrest k). by replace (S i + k) with (i + S k) by lia.
    + destruct (collect src (S i) ts) as [e'|[out' n']] eqn:Hrest; [discriminate|].
      injection Hc as <- <-. destruct k as [|k]; [reflexivity|].
      simpl. rewrite (IH _ _ _ Hrest k). by replace (S i + k) with (i + S k) by lia.
Qed.

(** The loop returns only if no task was cancelled. *)
Lemma collect_returns {A} `{HasAttrs A} (src : list A) tasks :
  forall i out n,
    collect src i tasks = inr (out, n) ->
    forall k t, tasks !! k = Some t -> is_cancelled t = false.
Proof.
  induction tasks as [|t ts IH]; intros i out n Hc k t' Hk; [by rewrite lookup_nil in Hk|].
  simpl in Hc. destruct t as [[e|msg]|res]; [| discriminate |].
  - destruct (src !! i) as [o|]; [|discriminate].
    destruct (collect src (S i) ts) as [e'|[out' n']] eqn:Hrest; [discriminate|].
    destruct k as [|k]; [by injection Hk as <-|]. eapply IH; [exact Hrest|exact Hk].
  - destruct (collect src (S i) ts) as [e'|[out' n']] eqn:Hrest; [discriminate|].
    destruct k as [|k]; [by injection Hk as <-|]. eapply IH; [exact Hrest|exact Hk].
Qed.

(** With as many tasks as source objects, the loop raises only for a
    cancelled task, and then it raises AttributeError. *)
Lemma collect_raises {A} `{HasAttrs A} (src : list A) tasks :
  forall i e,
    length tasks = length (drop i src) ->
    collect src i tasks = inl e ->
    e = no_success_attribute
    /\ exists k t, tasks !! k = Some t /\ is_cancelled t = true.
Proof.
  induction tasks as [|t ts IH]; intros i e Hlen Hc; [discriminate|].
  assert (is_Some (src !! i)) as [o Ho].
  { apply lookup_lt_is_Some. rewrite length_drop in Hlen. simpl in Hlen. lia. }
  rewrite (drop_S _ _ _ Ho) in Hlen. simpl in Hlen.
  simpl in Hc. destruct t as [[e0|msg]|res].
  - rewrite Ho in Hc.
    destruct (collect src (S i) ts) as [e'|[out' n']] eqn:Hrest; [|discriminate].
    injection Hc as <-. destruct (IH (S i) e') as (-> & k & t & Hk & Ht); [lia|done|].
    split; [done|]. by exists (S k), t.
  - injection Hc as <-. split; [done|]. by exists 0, (inl (Cancelled msg)).
  - destruct (collect src (S i) ts) as [e'|[out' n']] eqn:Hrest; [|discriminate].
    injection Hc as <-. destruct (IH (S i) e') as (-> & k & t & Hk & Ht); [lia|done|].
    split; [done|]. by exists (S k), t.
Qed.

Lemma collect_well_formed {A} `{HasAttrs A} g (src : list A) tasks i out n :
  collect src i tasks = inr (out, n) ->
  (forall r, inr r ∈ tasks -> well_formed g r) ->
  Forall (well_formed g) out.
Proof.
  intros Hc Ht. apply Forall_lookup. intros k r Hr.
  rewrite (collect_lookup src tasks i out n Hc k) in Hr.
  destruct (tasks !! k) as [[[e|msg]|res]|] eqn:Hk; [| discriminate | |discriminate].
  - destruct (src !! (i + k)); [|discriminate]. injection Hr as <-.
    unfold well_formed. simpl. eauto.
  - injection Hr as <-. apply Ht. eapply list_elem_of_lookup_2, Hk.
Qed.

Lemma task_result_well_formed g env txt item_id ctype r :
  task_result (_generate_single_embedding g env txt item_id ctype) = inr r -> well_formed g r.
Proof.
  unfold _generate_single_embedding. destruct (get_session env); [discriminate|].
  pose proof (attempts_well_formed g env txt item_id ctype (max_retries g) 0) as Hw.
  destruct (attempts _ _ _ _ _ _ _) as [[msg|r'] evs]; simpl; [discriminate|].
  intros [= <-]. by apply Hw.
Qed.

(** A batch of tasks made from its source objects: what comes back has
    the two shapes, and the batch raises only for a cancelled task. *)
Lemma execute_shapes {A} `{HasAttrs A} g (src : list A)
    (f : nat -> A -> raised + EmbeddingResult) :
  (forall i o r, f i o = inr r -> well_formed g r) ->
  match _execute_embedding_tasks (imap f src) src with
  | inr (out, _) => Forall (well_formed g) out
  | inl e =>
    e = no_success_attribute
    /\ exists i o, src !! i = Some o /\ is_cancelled (f i o) = true
  end.
Proof.
  intros Hf. unfold _execute_embedding_tasks.
  destruct (collect src 0 (imap f src)) as [e|[out n]] eqn:Hc.
  - destruct (collect_raises src (imap f src) 0 e) as (-> & k & t & Hk & Ht);
      [by rewrite length_imap|exact Hc|].
    split; [done|]. rewrite list_lookup_imap in Hk.
    destruct (src !! k) as [o|] eqn:Ho; [|discriminate]. injection Hk as <-.
    by exists k, o.
  - apply (collect_well_formed g src _ _ _ _ Hc).
    intros r Hr. apply list_elem_of_lookup in Hr as [k Hk].
    rewrite list_lookup_imap in Hk. destruct (src !! k) as [o|]; [|discriminate].
    simpl in Hk. injection Hk as Hk. eapply Hf, Hk.
Qed.


(** X4.  When the task of an image analysis raises an exception (its
    session cannot be acquired) and no task of the batch is cancelled, the
    batch returns, and the outcome at that position is a failure under the
    image's id whose error is the exception's text and whose content type
    is "text", not "image". *)
Theorem raised_image_task_becomes_text_failure
    (g : Generator) (envs : nat -> TaskEnv) (image_analyses : list ImageAnalysis)
    (i : nat) (a : ImageAnalysis) (e : exn) :
  image_analyses !! i = Some a ->
  get_session (envs i) = Some (Exc e) ->
  (forall k b, image_analyses !! k = Some b -> is_cancelled (image_task g envs k b) = false) ->
  exists out,
    generate_embeddings_for_images g envs image_analyses = inr out
    /\ length out = length image_analyses
    /\ out !! i = Some (mkResult (image_id a) [] false "text" (Some (str e))).
Proof.
  intros Ha He Hnc. unfold generate_embeddings_for_images.
  destruct image_analyses as [|c cs]; [by rewrite lookup_nil in Ha|].
  set (f := fun (i : nat) (a : ImageAnalysis) =>
         task_result (_generate_single_embedding g (envs i)
                        (_prepare_image_text_for_embedding a) (image_id a) "image")).
  destruct (execute_ids image_id (c :: cs) f) as (out & sm & Hex & Hm).
  - reflexivity.
  - intros k o Ho. unfold f. rewrite is_cancelled_task_result. by apply Hnc.
  - intros k o r. apply single_embedding_id.
  - fold f. rewrite Hex. exists out. split; [reflexivity|].
    split; [by rewrite <- (length_map chunk_id), Hm, length_map|].
    unfold _execute_embedding_tasks in Hex.
    destruct (collect (c :: cs) 0 (imap f (c :: cs))) as [e'|[out' n]] eqn:Hc; [discriminate|].
    injection Hex as <- _.
    rewrite (collect_lookup _ _ _ _ _ Hc i), list_lookup_imap, Ha. simpl.
    unfold f at 1, _generate_single_embedding. rewrite He. simpl. by rewrite Ha.
Qed.

(** A one-image batch whose session is closed. *)
Lemma raised_image_task_witness :
  exists out,
    generate_embeddings_for_images default_generator (fun _ => no_session) [image_1] = inr out
    /\ length out = 1
    /\ out !! 0 = Some (mkResult (image_id image_1) [] false "text"
                          (Some (str (Raise OtherException "Session is closed")))).
Proof.
  apply (raised_image_task_becomes_text_failure default_generator (fun _ => no_session)
           [image_1] 0 image_1 (Raise OtherException "Session is closed")).
  - reflexivity.
  - reflexivity.
  - intros k b _. reflexivity.
Defined.

(** *** Replies the loop does not pause for *)

Lemma attempts_silent g env txt item_id ctype k :
  forall m a0,
    (forall a, a0 <= a < a0 + k ->
       attempt_body g item_id ctype a (post env a (_prepare_text_for_embedding txt))
       = (Continue, [])) ->
    attempts g env txt item_id ctype (k + m) a0
    = ((attempts g env txt item_id ctype m (a0 + k)).1,
       map (fun a => Post a (_prepare_text_for_embedding txt)) (seq a0 k)
       ++ (attempts g env txt item_id ctype m (a0 + k)).2).
Proof.
  induction k as [|k IH]; intros m a0 Hc.
  - rewrite Nat.add_0_r. simpl. by destruct (attempts _ _ _ _ _ m a0).
  - change (S k + m) with (S (k + m)). rewrite attempts_S.
    rewrite (Hc a0) by lia.
    rewrite (IH m (S a0)) by (intros a Ha; apply Hc; lia).
    replace (S a0 + k) with (a0 + S k) by lia. reflexivity.
Qed.



(** *** Transport errors *)

Lemma step_raised g item_id ctype a e :
  attempt_body g item_id ctype a (Raised e)
  = backoff_or_fail g a (failure item_id ctype (except_prefix e +:+ str e)).
Proof. unfold attempt_body, except_prefix. by destruct (is_client_error e). Qed.



(** *** What is sent *)

Lemma length_substring_le n s : String.length (String.substring 0 n s) <= n.
Proof.
  revert s. induction n as [|n IH]; intros [|c s]; simpl; try lia.
  specialize (IH s). lia.
Qed.

Lemma prepare_text_length txt : String.length (_prepare_text_for_embedding txt) <= max_chars.
Proof.
  unfold _prepare_text_for_embedding.
  destruct (Nat.ltb_spec max_chars (String.length (strip txt))); [|done].
  apply length_substring_le.
Qed.

Lemma inputs_app evs1 evs2 : inputs (evs1 ++ evs2) = inputs evs1 ++ inputs evs2.
Proof. apply omap_app. Qed.

Lemma attempts_inputs g env txt item_id ctype :
  forall n a,
    Forall (fun i => i = _prepare_text_for_embedding txt)
           (inputs (attempts g env txt item_id ctype n a).2).
Proof.
  induction n as [|n IH]; intros a; [constructor|].
  rewrite attempts_S. destruct (attempt_body _ _ _ _ _) as [st evs] eqn:Hb.
  apply attempt_body_events in Hb as [->|(d & -> & -> & _)].
  - destruct st; cbn [fst snd]; constructor; try done. apply IH.
  - cbn [fst snd]. constructor; [done|]. apply IH.
Qed.

Lemma substring_prefix n s :
  n <= String.length s ->
  String.length (String.substring 0 n s) = n
  /\ exists rest, s = String.substring 0 n s +:+ rest.
Proof.
  revert s. induction n as [|n IH]; intros s Hn.
  - destruct s; (split; [reflexivity|]); by eexists.
  - destruct s as [|c s]; [simpl in Hn; lia|]. simpl in Hn.
    destruct (IH s) as (Hl & rest & Hr); [lia|]. simpl. split; [by rewrite Hl|].
    exists rest. change (String c s = String c (String.substring 0 n s +:+ rest)).
    by rewrite <- Hr.
Qed.

(** Reversal, as [rstrip] uses it. *)
Lemma rev_app_append s t u : String.rev_app s t +:+ u = String.rev_app s (t +:+ u).
Proof. revert t. induction s as [|a s IH]; intros t; [done|]. simpl. by rewrite IH. Qed.

Lemma rev_app_rev_app s t u :
  String.rev_app (String.rev_app s t) u = String.rev_app t (s +:+ u).
Proof. revert t u. induction s as [|a s IH]; intros t u; [done|]. simpl. by rewrite IH. Qed.

Lemma rev_rev s : String.rev (String.rev s) = s.
Proof.
  unfold String.rev. rewrite rev_app_rev_app. simpl. apply FilterProps.append_nil_r.
Qed.

Lemma rev_app_of_append a b t :
  String.rev_app (a +:+ b) t = String.rev_app b (String.rev_app a t).
Proof.
  revert t. induction a as [|c a IH]; intros t; [done|].
  rewrite FilterProps.append_cons. simpl. apply IH.
Qed.

Lemma rev_append a b : String.rev (a +:+ b) = String.rev b +:+ String.rev a.
Proof.
  unfold String.rev. rewrite rev_app_of_append.
  by rewrite (rev_app_append b "" (String.rev_app a "")).
Qed.

Lemma all_space_rev_app s t :
  all_space (String.rev_app s t) = all_space s && all_space t.
Proof.
  revert t. induction s as [|a s IH]; intros t; [done|]. simpl. rewrite IH. simpl.
  by destruct (isspace a), (all_space s), (all_space t).
Qed.

Lemma ends_with_space_rev_app s t :
  ends_with_space (String.rev_app s t)
  = match t with EmptyString => starts_with_space s | _ => ends_with_space t end.
Proof.
  revert t. induction s as [|a s IH]; intros t; [by destruct t|].
  simpl String.rev_app. rewrite IH. by destruct t.
Qed.

Lemma starts_with_space_rev_app s t :
  starts_with_space (String.rev_app s t)
  = match s with EmptyString => starts_with_space t | _ => ends_with_space s end.
Proof.
  revert t. induction s as [|a s IH]; intros t; [done|].
  simpl String.rev_app. rewrite IH. by destruct s.
Qed.

Lemma ends_with_space_append l z :
  z <> "" -> ends_with_space (l +:+ z) = ends_with_space z.
Proof.
  intros Hz. induction l as [|c l IH]; [done|].
  rewrite FilterProps.append_cons.
  change (match l +:+ z with
          | EmptyString => isspace c
          | _ => ends_with_space (l +:+ z)
          end = ends_with_space z).
  destruct (l +:+ z) eqn:Hlz; [|exact IH].
  destruct l; [by simpl in Hlz|by rewrite FilterProps.append_cons in Hlz].
Qed.

(** [lstrip] takes a run of whitespace off the front, all of it. *)
Lemma lstrip_split s :
  exists l, s = l +:+ lstrip s /\ all_space l = true /\ starts_with_space (lstrip s) = false.
Proof.
  induction s as [|c s IH]; [by exists ""|].
  simpl lstrip. destruct (isspace c) eqn:Hc.
  - destruct IH as (l & Hl & Hal & Hst). exists (String c l).
    split; [by rewrite FilterProps.append_cons, <- Hl|]. split; [|done].
    simpl. by rewrite Hc.
  - exists "". split; [done|]. split; [done|]. exact Hc.
Qed.

(** [strip] takes the whitespace off both ends, all of it, and nothing
    else. *)
Lemma strip_split txt :
  exists l r,
    txt = l +:+ strip txt +:+ r
    /\ all_space l = true /\ all_space r = true
    /\ starts_with_space (strip txt) = false
    /\ ends_with_space (strip txt) = false.
Proof.
  unfold strip, rstrip.
  destruct (lstrip_split txt) as (l & Hl & Hal & Hy).
  destruct (lstrip_split (String.rev (lstrip txt))) as (l' & Hl' & Hal' & Hz).
  set (y := lstrip txt) in *. set (z := lstrip (String.rev y)) in *.
  exists l, (String.rev l').
  assert (Hyz : y = String.rev z +:+ String.rev l').
  { rewrite <- (rev_rev y), Hl'. apply rev_append. }
  split; [by rewrite <- Hyz|]. split; [exact Hal|]. split.
  { unfold String.rev. rewrite all_space_rev_app, Hal'. done. }
  split.
  - unfold String.rev at 1. rewrite starts_with_space_rev_app.
    destruct z as [|c z'] eqn:Ez; [done|].
    rewrite <- (ends_with_space_append l') by done. rewrite <- Hl'.
    unfold String.rev. rewrite ends_with_space_rev_app. exact Hy.
  - unfold String.rev. rewrite ends_with_space_rev_app. exact Hz.
Qed.

Lemma prepared_text_cut txt :
  (String.length (strip txt) <= max_chars -> _prepare_text_for_embedding txt = strip txt)
  /\ (max_chars < String.length (strip txt) ->
      String.length (_prepare_text_for_embedding txt) = max_chars
      /\ exists rest, strip txt = _prepare_text_for_embedding txt +:+ rest).
Proof.
  split.
  - intros Hlen. unfold _prepare_text_for_embedding.
    destruct (Nat.ltb_spec max_chars (String.length (strip txt))); [lia|done].
  - intros Hlen. unfold _prepare_text_for_embedding.
    destruct (Nat.ltb_spec max_chars (String.length (strip txt))); [|lia].
    apply substring_prefix. lia.
Qed.

(** X7.  Every request of a call carries the same input, the prepared
    text.  Preparing a text takes the whitespace off both its ends, all of
    it and nothing else; what is left is sent whole when it has at most
    7000 characters, and otherwise its first 7000 characters are sent,
    exactly, and what follows them is dropped. *)
Theorem requests_carry_the_prepared_text
    (g : Generator) (env : TaskEnv) (txt item_id ctype : string) :
  match _generate_single_embedding g env txt item_id ctype with
  | inr (r, evs) => Forall (fun i => i = _prepare_text_for_embedding txt) (inputs evs)
  | inl _ => True
  end
  /\ (exists l r,
        txt = l +:+ strip txt +:+ r
        /\ all_space l = true /\ all_space r = true
        /\ starts_with_space (strip txt) = false
        /\ ends_with_space (strip txt) = false)
  /\ ((String.length (strip txt) <= 7000)%nat ->
      _prepare_text_for_embedding txt = strip txt)
  /\ ((7000 < String.length (strip txt))%nat ->
      String.length (_prepare_text_for_embedding txt) = 7000%nat
      /\ exists rest, strip txt = _prepare_text_for_embedding txt +:+ rest).
Proof.
  split; [|split; [apply strip_split|exact (prepared_text_cut txt)]].
  unfold _generate_single_embedding. destruct (get_session env); [done|].
  pose proof (attempts_inputs g env txt item_id ctype (max_retries g) 0) as Hi.
  by destruct (attempts _ _ _ _ _ _ _) as [[msg|r] evs].
Qed.

(** *** The closing counts *)

Lemma collect_count {A} `{HasAttrs A} (src : list A) tasks :
  forall i out n,
    collect src i tasks = inr (out, n) ->
    n = length (List.filter success out) /\ length out = length tasks.
Proof.
  induction tasks as [|t ts IH]; intros i out n Hc.
  - simpl in Hc. by injection Hc as <- <-.
  - simpl in Hc. destruct t as [[e|msg]|res]; [| discriminate |].
    + destruct (src !! i) as [o|]; [|discriminate].
      destruct (collect src (S i) ts) as [e'|[out' n']] eqn:Hrest; [discriminate|].
      injection Hc as <- <-. destruct (IH _ _ _ Hrest) as [-> Hl]. simpl. by rewrite Hl.
    + destruct (collect src (S i) ts) as [e'|[out' n']] eqn:Hrest; [discriminate|].
      injection Hc as <- <-. destruct (IH _ _ _ Hrest) as [-> Hl]. simpl.
      rewrite Hl. by destruct (success res).
Qed.

(** X8.  For as many tasks as source objects, the counts logged when a
    batch is done add up: total is the number of outcomes, success is the
    number of outcomes with [success] set, and failed is the rest, where
    tasks that raised count as failed. *)
Theorem batch_counts_add_up
    (tasks : list (raised + EmbeddingResult)) (source_objects : list DocumentChunk)
    (out : list EmbeddingResult) (sm : Summary) :
  length tasks = length source_objects ->
  _execute_embedding_tasks tasks source_objects = inr (out, sm) ->
  total sm = length out
  /\ succeeded sm = length (List.filter success out)
  /\ failed sm = length (List.filter (fun r => negb (success r)) out)
  /\ succeeded sm + failed sm = total sm.
Proof.
  intros Hlen. unfold _execute_embedding_tasks.
  destruct (collect source_objects 0 tasks) as [e|[out' n]] eqn:Hc; [discriminate|].
  intros [= <- <-]. simpl.
  destruct (collect_count _ _ _ _ _ Hc) as [-> Hl].
  assert (Hsplit : length (List.filter success out')
                   + length (List.filter (fun r => negb (success r)) out') = length out').
  { clear. induction out' as [|r l IH]; [reflexivity|]. simpl.
    destruct (success r); simpl; lia. }
  lia.
Qed.

(** Two chunks: one task returned a failure outcome, the other raised. *)
Lemma batch_counts_witness :
  let out := [failure "report_1_0" "text" "Rate limit exceeded: slow down";
              mkResult "report_1_1" [] false "text" (Some "Session is closed")] in
  let sm := {| total := 2; succeeded := 0; failed := 2 |} in
  total sm = length out
  /\ succeeded sm = length (List.filter success out)
  /\ failed sm = length (List.filter (fun r => negb (success r)) out)
  /\ succeeded sm + failed sm = total sm.
Proof.
  apply (batch_counts_add_up
           [inr (failure "report_1_0" "text" "Rate limit exceeded: slow down");
            inl (Exc (Raise OtherException "Session is closed"))]
           [text_chunk_1; text_chunk_2]).
  - reflexivity.
  - reflexivity.
Defined.

End EmbeddingMore.

(** ** Group resolution: failures before the lookup, what is kept, and for whom *)

Module AuthMore.

Import World EntraIDAuth EntraIDAuthRest AuthObs MoreObs AuthProps.
Local Open Scope list_scope.
Local Arguments memberOf_url : simpl never.
Local Arguments cache_key : simpl never.

(** X9.  When nothing usable is cached and the token request is refused or
    raises, [get_user_groups] raises ("Token acquisition failed: ..." with
    the service's description, or "Unknown error" when it gives none; or the
    exception the token request raised) before any request is sent to the
    identity graph, and the cache is as it was. *)
Theorem token_failure_raises_before_any_lookup
    (env : Env) (user_id : string) (s : State) :
  stale_or_absent env user_id s ->
  (forall tok, acquire_token_for_client env (token_calls s) <> TokenGranted tok) ->
  exists e s',
    get_user_groups env user_id s = (inl e, s')
    /\ ((exists d, acquire_token_for_client env (token_calls s) = TokenRefused d
                   /\ e = Exception ("Token acquisition failed: "
                                     +:+ default "Unknown error" d))
        \/ acquire_token_for_client env (token_calls s) = TokenRaised e)
    /\ lookups s' = lookups s
    /\ _group_cache s' = _group_cache s.
Proof.
  intros Hst Hno.
  destruct (cached_groups_miss env user_id s Hst)
    as (s0 & Hp & Hcache & Hclock & Htc & Hlk & Hem & Hse).
  unfold get_user_groups. fold (cache_key user_id).
  rewrite (bind_inr _ _ _ _ _ Hp).
  unfold get_access_token, call_acquire_token, raise, mbind, M_bind, mret, M_ret. simpl.
  rewrite Htc.
  destruct (acquire_token_for_client env (token_calls s)) as [tok|d|e'] eqn:Htok.
  - by destruct (Hno tok).
  - eexists _, _. split; [reflexivity|]. split; [left; eauto|]. simpl. by rewrite Hlk, Hcache.
  - eexists _, _. split; [reflexivity|]. split; [by right|]. simpl. by rewrite Hlk, Hcache.
Qed.

(** The client secret is wrong. *)
Lemma token_failure_witness :
  exists e s',
    get_user_groups token_refused_world "alice" initial = (inl e, s')
    /\ ((exists d, acquire_token_for_client token_refused_world (token_calls initial)
                   = TokenRefused d
                   /\ e = Exception ("Token acquisition failed: "
                                     +:+ default "Unknown error" d))
        \/ acquire_token_for_client token_refused_world (token_calls initial) = TokenRaised e)
    /\ lookups s' = lookups initial
    /\ _group_cache s' = _group_cache initial.
Proof.
  apply (token_failure_raises_before_any_lookup token_refused_world "alice" initial).
  - intros c Hc. simpl in Hc. rewrite lookup_empty in Hc. discriminate.
  - intros tok. simpl. discriminate.
Defined.

(** X10.  The groups read from a memberOf reply are the ids of its items
    typed "#microsoft.graph.group", in the reply's order; items of any
    other type are passed over, with or without an id.  If some group item
    has no id, reading raises KeyError and no group is returned. *)
Theorem extract_groups_keeps_group_ids_only (items : list DirectoryObject) :
  extract_groups items
  = if forallb group_has_id items
    then inr (omap object_id (List.filter is_group items))
    else inl (Raise KeyError "'id'").
Proof.
  induction items as [|item rest IH]; [reflexivity|].
  change (extract_groups (item :: rest))
    with (if is_group item
          then match object_id item with
               | None => inl (Raise KeyError "'id'")
               | Some i => match extract_groups rest with
                           | inl e => inl e
                           | inr gs => inr (i :: gs)
                           end
               end
          else extract_groups rest).
  cbn [forallb List.filter]. unfold group_has_id at 1.
  destruct (is_group item) eqn:Hgrp; cbn [negb orb andb]; [|exact IH].
  destruct (object_id item) as [i|] eqn:Hid.
  - rewrite bool_decide_eq_true_2 by eauto. rewrite IH. cbn [andb].
    destruct (forallb group_has_id rest); [|reflexivity].
    cbn [omap list_omap]. by rewrite Hid.
  - rewrite bool_decide_eq_false_2; [reflexivity|]. by intros [? ?].
Qed.

(** X11.  With a non-empty list of required groups and the user's groups
    resolved, [validate_user_access] grants access exactly when the user
    is in at least one required group. *)
Theorem validate_user_access_iff_common_group
    (env : Env) (user_id : string) (required_groups user_groups : list string)
    (s s' : State) :
  required_groups <> [] ->
  get_user_groups env user_id s = (inr user_groups, s') ->
  exists b,
    validate_user_access env user_id required_groups s = (inr b, s')
    /\ (b = true <-> exists g, g ∈ user_groups /\ g ∈ required_groups).
Proof.
  intros Hne Hg. unfold validate_user_access.
  destruct required_groups as [|g0 gs0]; [done|].
  eexists. split.
  - apply try_except_inr. rewrite (bind_inr _ _ _ _ _ Hg). reflexivity.
  - rewrite bool_decide_eq_true. split.
    + intros Hcap. apply set_choose_L in Hcap as [g Hin].
      apply elem_of_intersection in Hin as [H1 H2].
      apply elem_of_list_to_set in H1, H2. eauto.
    + intros (g & H1 & H2) Hempty.
      assert (g ∈ (list_to_set user_groups ∩ list_to_set (g0 :: gs0) : gset string)) as Hin.
      { apply elem_of_intersection. split; by apply elem_of_list_to_set. }
      rewrite Hempty in Hin. by apply not_elem_of_empty in Hin.
Qed.

(** Alice is in g2; g2 or g3 is required. *)
Lemma validate_user_access_witness :
  exists b,
    validate_user_access (graph_world ten_minutes member_of_g2) "alice" ["g3"; "g2"] initial
    = (inr b, (get_user_groups (graph_world ten_minutes member_of_g2) "alice" initial).2)
    /\ (b = true <-> exists g, g ∈ ["g2"] /\ g ∈ ["g3"; "g2"]).
Proof.
  apply (validate_user_access_iff_common_group
           (graph_world ten_minutes member_of_g2) "alice" ["g3"; "g2"] ["g2"] initial).
  - discriminate.
  - reflexivity.
Defined.

(** X12.  When the user's groups are resolved, the accessible groups are
    the groups that are both the user's and configured as document access
    groups, each listed once. *)
Theorem accessible_groups_are_common_groups
    (env : Env) (user_id : string) (user_groups : list string) (s s' : State) :
  get_user_groups env user_id s = (inr user_groups, s') ->
  exists accessible,
    get_user_accessible_groups env user_id s = (inr accessible, s')
    /\ NoDup accessible
    /\ forall g, g ∈ accessible
                 <-> g ∈ user_groups /\ g ∈ document_access_groups_list (settings env).
Proof.
  intros Hg. unfold get_user_accessible_groups.
  eexists. split; [|split].
  - apply try_except_inr. rewrite (bind_inr _ _ _ _ _ Hg). reflexivity.
  - apply NoDup_elements.
  - intros g. rewrite elem_of_elements, elem_of_intersection, !elem_of_list_to_set. done.
Qed.

(** Alice is in g2; g1 and g2 are configured. *)
Lemma accessible_groups_witness :
  exists accessible,
    get_user_accessible_groups (graph_world ten_minutes member_of_g2) "alice" initial
    = (inr accessible, (get_user_groups (graph_world ten_minutes member_of_g2) "alice" initial).2)
    /\ NoDup accessible
    /\ forall g, g ∈ accessible
                 <-> g ∈ ["g2"]
                     /\ g ∈ document_access_groups_list
                              (settings (graph_world ten_minutes member_of_g2)).
Proof.
  apply (accessible_groups_are_common_groups
           (graph_world ten_minutes member_of_g2) "alice" ["g2"] initial).
  reflexivity.
Defined.

(** What a resolution does to the cache: nothing, or one entry written
    under the resolved user's key. *)
Lemma get_user_groups_cache env user_id s :
  _group_cache (get_user_groups env user_id s).2 = _group_cache s
  \/ exists entry,
       _group_cache (get_user_groups env user_id s).2
       = <[cache_key user_id := entry]> (_group_cache s).
Proof.
  unfold get_user_groups, cached_groups, get_access_token, call_acquire_token,
    call_requests_get, datetime_now, set_cache, get_cache, lift, raise,
    mbind, M_bind, mret, M_ret. fold (cache_key user_id).
  repeat (case_match; simplify_eq; simpl in * ); eauto.
Qed.

Lemma cache_key_inj a b : cache_key a = cache_key b -> a = b.
Proof. unfold cache_key. apply (inj (String.app "user_groups_")). Qed.

(** X13.  Resolving one user's groups, whether it hits, fetches or fails,
    leaves every other user's cache entry as it was. *)
Theorem resolution_leaves_other_users_entries
    (env : Env) (user_id other_id : string) (s : State) :
  user_id <> other_id ->
  _group_cache (get_user_groups env user_id s).2 !! cache_key other_id
  = _group_cache s !! cache_key other_id.
Proof.
  intros Hne. destruct (get_user_groups_cache env user_id s) as [->|(entry & ->)]; [done|].
  apply lookup_insert_ne. intros Heq. by apply cache_key_inj in Heq.
Qed.

(** Resolving bob while alice is cached. *)
Lemma resolution_leaves_other_users_witness :
  _group_cache (get_user_groups (graph_world ten_minutes member_of_g2) "bob" alice_cached).2
    !! cache_key "alice"
  = _group_cache alice_cached !! cache_key "alice".
Proof.
  apply (resolution_leaves_other_users_entries
           (graph_world ten_minutes member_of_g2) "bob" "alice" alice_cached).
  discriminate.
Defined.

(** X14.  After [clear_cache] a resolution is never answered from the
    cache: with the token granted and the graph answering, it fetches the
    groups again whatever was cached before, and caches them anew. *)
Theorem clear_cache_forces_a_lookup
    (env : Env) (user_id : string) (s : State) (gs : list string) :
  fetch_ok env user_id s gs ->
  exists s',
    (clear_cache ≫= fun _ => get_user_groups env user_id) s = (inr gs, s')
    /\ lookups s' = lookups s ++ [memberOf_url user_id]
    /\ token_calls s' = S (token_calls s)
    /\ _group_cache s'
       = {[ cache_key user_id := {| groups := gs; timestamp := now env (clock_reads s) |} ]}.
Proof.
  intros Hok.
  set (s0 := (clear_cache s).2).
  assert (Hst : stale_or_absent env user_id s0).
  { intros c Hc. subst s0. simpl in Hc. rewrite lookup_empty in Hc. discriminate. }
  destruct (get_user_groups_fetch env user_id s0 gs Hst Hok)
    as (s' & Hg & Hcache & _ & Htc & Hlk & _).
  exists s'. split; [|split; [exact Hlk|split; [exact Htc|]]].
  - unfold mbind, M_bind. simpl. exact Hg.
  - rewrite Hcache. unfold probe_reads. subst s0. simpl. rewrite lookup_empty.
    rewrite Nat.add_0_r. reflexivity.
Qed.

(** Alice has a fresh entry [g1]; the graph now lists her in g2. *)
Lemma clear_cache_witness :
  exists s',
    (clear_cache ≫= fun _ => get_user_groups (graph_world ten_minutes member_of_g2) "alice")
      alice_cached = (inr ["g2"], s')
    /\ lookups s' = lookups alice_cached ++ [memberOf_url "alice"]
    /\ token_calls s' = S (token_calls alice_cached)
    /\ _group_cache s'
       = {[ cache_key "alice" :=
              {| groups := ["g2"];
                 timestamp := now (graph_world ten_minutes member_of_g2)
                                  (clock_reads alice_cached) |} ]}.
Proof.
  apply (clear_cache_forces_a_lookup (graph_world ten_minutes member_of_g2) "alice"
           alice_cached ["g2"]).
  exists "tok", member_of_g2. eexists. repeat (split; [reflexivity|]). reflexivity.
Defined.

End AuthMore.

(** ** The security filter, the documents it is run against, and document keys *)

Module FilterMore.

Import World EntraIDAuth OData AuthObs MoreObs PdfProcessor FilterProps AuthProps.
Local Open Scope list_scope.

(** X15.  For a non-empty list of group ids free of single quotes, the
    filter text reads back, clause by clause, as exactly that list: one
    clause per group, in the order given. *)
Theorem security_filter_reads_back_as_its_groups (user_accessible_groups : list string) :
  user_accessible_groups <> [] ->
  Forall (fun g => quote_free g = true) user_accessible_groups ->
  parse (S (String.length (generate_security_filter user_accessible_groups)))
        (generate_security_filter user_accessible_groups)
  = Some user_accessible_groups.
Proof. intros Hne Hq. by apply parse_filter. Qed.

(** Two groups. *)
Lemma security_filter_reads_back_witness :
  parse (S (String.length (generate_security_filter ["g1"; "g2"])))
        (generate_security_filter ["g1"; "g2"])
  = Some ["g1"; "g2"].
Proof.
  apply (security_filter_reads_back_as_its_groups ["g1"; "g2"]).
  - discriminate.
  - repeat constructor.
Defined.

Lemma matches_built_filter gs d :
  Forall (fun g => quote_free g = true) gs ->
  matches (generate_security_filter gs) d
  = existsb (fun l => bool_decide (l ∈ d)) (compared_groups gs).
Proof.
  intros Hq. unfold matches. destruct gs as [|g gs]; [reflexivity|].
  by rewrite parse_filter.
Qed.

(** X16.  Which documents a filter matches depends only on which groups
    were handed to the builder, not on their order or on repetitions: two
    quote-free lists with the same members give filters that match the
    same documents. *)
Theorem security_filter_depends_on_group_set
    (groups1 groups2 document_groups : list string) :
  Forall (fun g => quote_free g = true) groups1 ->
  Forall (fun g => quote_free g = true) groups2 ->
  (forall g, g ∈ groups1 <-> g ∈ groups2) ->
  matches (generate_security_filter groups1) document_groups
  = matches (generate_security_filter groups2) document_groups.
Proof.
  intros Hq1 Hq2 Hsame.
  rewrite !matches_built_filter by done.
  assert (Hc : forall g, g ∈ compared_groups groups1 <-> g ∈ compared_groups groups2).
  { destruct groups1 as [|a l1], groups2 as [|b l2]; simpl; try done.
    - exfalso. eapply not_elem_of_nil, (Hsame b). left.
    - exfalso. eapply not_elem_of_nil, (Hsame a). left. }
  apply eq_true_iff_eq. rewrite !existsb_elem_of.
  split; intros (g & Hg & Hd); exists g; (split; [by apply Hc|done]).
Qed.

(** The same two groups, reordered and repeated. *)
Lemma security_filter_group_set_witness :
  matches (generate_security_filter ["g1"; "g2"]) ["g2"; "g7"]
  = matches (generate_security_filter ["g2"; "g1"; "g2"]) ["g2"; "g7"].
Proof.
  apply (security_filter_depends_on_group_set ["g1"; "g2"] ["g2"; "g1"; "g2"] ["g2"; "g7"]).
  - repeat constructor.
  - repeat constructor.
  - intros g. rewrite !elem_of_cons, !elem_of_nil. tauto.
Defined.

(** X17.  When neither access groups nor a default group are configured,
    a processed document gets an empty group list, and no filter the
    builder makes from quote-free groups matches it: through the
    permission filter such a document is seen by nobody. *)
Theorem unconfigured_documents_match_no_filter
    (st : Settings) (pdf_path : string) (user_accessible_groups : list string) :
  document_access_groups_list st = [] ->
  default_document_group st = "" ->
  Forall (fun g => quote_free g = true) user_accessible_groups ->
  _get_document_groups st pdf_path = []
  /\ matches (generate_security_filter user_accessible_groups)
             (_get_document_groups st pdf_path) = false.
Proof.
  intros Hl Hd Hq. unfold _get_document_groups. rewrite Hl, Hd. split; [reflexivity|].
  rewrite matches_built_filter by done.
  apply not_true_iff_false. rewrite existsb_elem_of. intros (g & _ & Hg).
  by apply not_elem_of_nil in Hg.
Qed.

(** Nothing configured; a user of group g1. *)
Lemma unconfigured_documents_witness :
  _get_document_groups nothing_configured "report.pdf" = []
  /\ matches (generate_security_filter ["g1"])
             (_get_document_groups nothing_configured "report.pdf") = false.
Proof.
  apply (unconfigured_documents_match_no_filter nothing_configured "report.pdf" ["g1"]).
  - reflexivity.
  - reflexivity.
  - repeat constructor.
Defined.

(** X18.  Documents are processed with all configured access groups, and
    a user's accessible groups are drawn from the same configuration: so
    whenever a user has any accessible group (quote-free ids), the filter
    built for that user matches every document processed under these
    settings. *)
Theorem any_accessible_group_matches_every_processed_document
    (env : Env) (user_id pdf_path : string) (accessible : list string) (s s' : State) :
  get_user_accessible_groups env user_id s = (inr accessible, s') ->
  accessible <> [] ->
  Forall (fun g => quote_free g = true) accessible ->
  matches (generate_security_filter accessible)
          (_get_document_groups (settings env) pdf_path) = true.
Proof.
  intros Hacc Hne Hq.
  rewrite matches_built_filter by done. apply existsb_elem_of.
  destruct accessible as [|g gs]; [done|]. exists g. split; [left|].
  assert (Hg : g ∈ document_access_groups_list (settings env)).
  { unfold get_user_accessible_groups, try_except, mbind, M_bind, mret, M_ret in Hacc.
    destruct (get_user_groups env user_id s) as [[e|ug] s1]; [discriminate|].
    injection Hacc as Hel _.
    assert (g ∈ elements (list_to_set ug ∩
              list_to_set (document_access_groups_list (settings env)) : gset string)) as Hin
      by (rewrite Hel; left).
    apply elem_of_elements, elem_of_intersection in Hin as [_ Hin].
    by apply elem_of_list_to_set in Hin. }
  unfold _get_document_groups.
  destruct (document_access_groups_list (settings env)) as [|d ds]; [|exact Hg].
  by apply not_elem_of_nil in Hg.
Qed.

(** Alice is in g2; documents carry g1 and g2. *)
Lemma any_accessible_group_witness :
  matches (generate_security_filter ["g2"])
          (_get_document_groups (settings (graph_world ten_minutes member_of_g2)) "report.pdf")
  = true.
Proof.
  apply (any_accessible_group_matches_every_processed_document
           (graph_world ten_minutes member_of_g2) "alice" "report.pdf" ["g2"] initial
           (get_user_accessible_groups (graph_world ten_minutes member_of_g2) "alice" initial).2).
  - vm_compute. reflexivity.
  - discriminate.
  - repeat constructor.
Defined.

End FilterMore.

(** ** Document keys *)

Module KeyProps.

Import PdfProcessor KeyObs.

Lemma key_char_underscore : key_char "_" = true.
Proof. reflexivity. Qed.

Lemma replace_invalid_chars s : all_chars key_char (replace_invalid s) = true.
Proof.
  induction s as [|c s IH]; [reflexivity|]. simpl.
  destruct (key_char c) eqn:Hc; by rewrite ?Hc, ?key_char_underscore, IH.
Qed.

Lemma collapse_chars p s :
  all_chars p s = true -> all_chars p (collapse_underscores s) = true.
Proof.
  induction s as [|c s IH]; [done|]. intros Hs. simpl in Hs.
  apply andb_true_iff in Hs as [Hc Hs]. specialize (IH Hs).
  simpl. destruct (Ascii.eqb c "_").
  - destruct s as [|c2 s2]; [by simpl; rewrite Hc|].
    destruct (Ascii.eqb c2 "_"); [exact IH|].
    change (p c && all_chars p (collapse_underscores (String c2 s2)) = true).
    by rewrite Hc, IH.
  - change (p c && all_chars p (collapse_underscores s) = true). by rewrite Hc, IH.
Qed.

Lemma collapse_starts s :
  starts_with "_" (collapse_underscores s) = starts_with "_" s.
Proof.
  induction s as [|c s IH]; [reflexivity|].
  simpl. destruct (Ascii.eqb c "_") eqn:Hc.
  - destruct s as [|c2 s2]; [by simpl; rewrite Hc|].
    destruct (Ascii.eqb c2 "_") eqn:Hc2.
    + rewrite IH. simpl. exact Hc2.
    + simpl. exact Hc.
  - simpl. exact Hc.
Qed.

Lemma collapse_no_double s : no_double_underscore (collapse_underscores s) = true.
Proof.
  induction s as [|c s IH]; [reflexivity|].
  simpl. destruct (Ascii.eqb c "_") eqn:Hc.
  - destruct s as [|c2 s2]; [by simpl; rewrite Hc|].
    destruct (Ascii.eqb c2 "_") eqn:Hc2; [exact IH|].
    change (negb (Ascii.eqb c "_" && starts_with "_" (collapse_underscores (String c2 s2)))
            && no_double_underscore (collapse_underscores (String c2 s2)) = true).
    rewrite collapse_starts, IH. simpl. by rewrite Hc2, andb_false_r.
  - change (negb (Ascii.eqb c "_" && starts_with "_" (collapse_underscores s))
            && no_double_underscore (collapse_underscores s) = true).
    by rewrite Hc, IH.
Qed.

Lemma lstrip_chars p x s : all_chars p s = true -> all_chars p (lstrip_char x s) = true.
Proof.
  induction s as [|c s IH]; [done|]. intros Hs. simpl.
  destruct (Ascii.eqb c x); [|exact Hs].
  simpl in Hs. apply andb_true_iff in Hs as [_ Hs]. by apply IH.
Qed.

Lemma lstrip_no_double x s :
  no_double_underscore s = true -> no_double_underscore (lstrip_char x s) = true.
Proof.
  induction s as [|c s IH]; [done|]. intros Hs. simpl.
  destruct (Ascii.eqb c x); [|exact Hs].
  simpl in Hs. apply andb_true_iff in Hs as [_ Hs]. by apply IH.
Qed.

Lemma lstrip_starts x s : starts_with x (lstrip_char x s) = false.
Proof.
  induction s as [|c s IH]; [reflexivity|]. simpl.
  destruct (Ascii.eqb c x) eqn:Hc; [exact IH|]. simpl. exact Hc.
Qed.

Lemma rstrip_cons x c s :
  rstrip_char x (String c s)
  = match rstrip_char x s with
    | EmptyString => if Ascii.eqb c x then EmptyString else String c EmptyString
    | r => String c r
    end.
Proof. reflexivity. Qed.

Lemma rstrip_chars p x s : all_chars p s = true -> all_chars p (rstrip_char x s) = true.
Proof.
  induction s as [|c s IH]; [done|]. intros Hs. simpl in Hs.
  apply andb_true_iff in Hs as [Hc Hs]. specialize (IH Hs). rewrite rstrip_cons.
  destruct (rstrip_char x s) as [|c2 r].
  - destruct (Ascii.eqb c x); [reflexivity|]. simpl. by rewrite Hc.
  - change (p c && all_chars p (String c2 r) = true). by rewrite Hc, IH.
Qed.

(** The stripped string starts like the string itself, unless nothing is
    left of it. *)
Lemma rstrip_starts x y s :
  starts_with y (rstrip_char x s) = true -> starts_with y s = true.
Proof.
  destruct s as [|c s]; [done|]. rewrite rstrip_cons.
  destruct (rstrip_char x s); [destruct (Ascii.eqb c x)|]; done.
Qed.

Lemma rstrip_no_double x s :
  no_double_underscore s = true -> no_double_underscore (rstrip_char x s) = true.
Proof.
  induction s as [|c s IH]; [done|]. intros Hs. simpl in Hs.
  apply andb_true_iff in Hs as [Hc Hs]. specialize (IH Hs). rewrite rstrip_cons.
  destruct (rstrip_char x s) as [|c2 r] eqn:Hr.
  - destruct (Ascii.eqb c x); [reflexivity|]. simpl. by rewrite andb_false_r.
  - change (negb (Ascii.eqb c "_" && starts_with "_" (String c2 r))
            && no_double_underscore (String c2 r) = true).
    rewrite IH, andb_true_r.
    destruct (Ascii.eqb c "_" && starts_with "_" (String c2 r)) eqn:Hd; [|reflexivity].
    apply andb_true_iff in Hd as [Hd1 Hd2].
    rewrite <- Hr in Hd2. apply rstrip_starts in Hd2. by rewrite Hd1, Hd2 in Hc.
Qed.

Lemma rstrip_ends x s : ends_with x (rstrip_char x s) = false.
Proof.
  induction s as [|c s IH]; [reflexivity|]. rewrite rstrip_cons.
  destruct (rstrip_char x s) as [|c2 r].
  - destruct (Ascii.eqb c x) eqn:Hc; [reflexivity|]. simpl. exact Hc.
  - exact IH.
Qed.

Lemma sanitized_clean (filename : string) :
  clean_key (_sanitize_filename_for_key filename) = true.
Proof.
  unfold clean_key, _sanitize_filename_for_key, strip_underscores.
  set (c := collapse_underscores (replace_invalid filename)).
  assert (Hc1 : all_chars key_char c = true) by apply collapse_chars, replace_invalid_chars.
  assert (Hc2 : no_double_underscore c = true) by apply collapse_no_double.
  rewrite rstrip_chars by by apply lstrip_chars.
  rewrite rstrip_no_double by by apply lstrip_no_double.
  rewrite rstrip_ends. simpl.
  destruct (starts_with "_" (rstrip_char "_" (lstrip_char "_" c))) eqn:Hs; [|reflexivity].
  apply rstrip_starts in Hs. by rewrite lstrip_starts in Hs.
Qed.

(** X19.  Whatever the file name, its sanitized form is fit for a
    document key: it holds only letters, digits, underscore, dash and
    equal sign, no two underscores in a row, and neither starts nor ends
    with an underscore. *)
Theorem sanitized_filename_is_a_clean_key (filename : string) :
  all_chars key_char (_sanitize_filename_for_key filename) = true
  /\ no_double_underscore (_sanitize_filename_for_key filename) = true
  /\ starts_with "_" (_sanitize_filename_for_key filename) = false
  /\ ends_with "_" (_sanitize_filename_for_key filename) = false.
Proof.
  pose proof (sanitized_clean filename) as Hk. unfold clean_key in Hk.
  apply andb_true_iff in Hk as [Hk He]. apply andb_true_iff in Hk as [Hk Hs].
  apply andb_true_iff in Hk as [Ha Hn]. apply negb_true_iff in He, Hs. done.
Qed.

Lemma replace_invalid_id s : all_chars key_char s = true -> replace_invalid s = s.
Proof.
  induction s as [|c s IH]; [done|]. intros Hs. simpl in Hs.
  apply andb_true_iff in Hs as [Hc Hs]. simpl. by rewrite Hc, IH.
Qed.

Lemma collapse_id s : no_double_underscore s = true -> collapse_underscores s = s.
Proof.
  induction s as [|c s IH]; [done|]. intros Hs. simpl in Hs.
  apply andb_true_iff in Hs as [Hc Hs]. specialize (IH Hs). simpl.
  destruct (Ascii.eqb c "_") eqn:Hcu.
  - destruct s as [|c2 s2]; [reflexivity|]. simpl in Hc.
    destruct (Ascii.eqb c2 "_"); [discriminate|]. by rewrite IH.
  - by rewrite IH.
Qed.

Lemma lstrip_id x s : starts_with x s = false -> lstrip_char x s = s.
Proof. destruct s as [|c s]; [done|]. simpl. by intros ->. Qed.

Lemma rstrip_id x s : ends_with x s = false -> rstrip_char x s = s.
Proof.
  induction s as [|c s IH]; [done|]. intros Hs. rewrite rstrip_cons.
  destruct s as [|c2 s2].
  - simpl in *. by rewrite Hs.
  - rewrite IH by exact Hs. reflexivity.
Qed.

(** X20.  Sanitizing is idempotent: a sanitized name is left as it is by
    a second pass, so keys can be rebuilt from keys. *)
Theorem sanitize_filename_is_idempotent (filename : string) :
  _sanitize_filename_for_key (_sanitize_filename_for_key filename)
  = _sanitize_filename_for_key filename.
Proof.
  pose proof (sanitized_clean filename) as Hk.
  unfold clean_key in Hk.
  apply andb_true_iff in Hk as [Hk He]. apply andb_true_iff in Hk as [Hk Hs].
  apply andb_true_iff in Hk as [Ha Hn].
  apply negb_true_iff in He, Hs.
  set (k := _sanitize_filename_for_key filename) in *.
  unfold _sanitize_filename_for_key at 1, strip_underscores.
  by rewrite replace_invalid_id, collapse_id, lstrip_id, rstrip_id.
Qed.

End KeyProps.

(** ** The search client: what reaches the index, and what comes back *)

Module SearchMore.

Import World EntraIDAuth SecureSearch SecureSearchRest AuthObs SearchObs GatewayObs AuthProps SearchProps.
Local Open Scope list_scope.
Local Arguments generate_security_filter : simpl never.
Local Arguments document_request : simpl never.
Local Arguments statistics_request : simpl never.

(** Each mode sends the index at most one query, with the filter and the
    [top] it was given, and asks for at most one embedding, of the query
    text; the text mode asks for none. *)
Lemma modes_traffic env query flt top itc facets s :
  let sent_ok (s' : State) :=
    (searches s' = searches s
     \/ exists rq, searches s' = searches s ++ [rq]
                   /\ filter rq = flt /\ World.top rq = top)
    /\ (embed_calls s' = embed_calls s \/ embed_calls s' = embed_calls s ++ [query]) in
  sent_ok (_vector_search env query flt top itc facets s).2
  /\ (sent_ok (_text_search env query flt top itc facets s).2
      /\ embed_calls (_text_search env query flt top itc facets s).2 = embed_calls s)
  /\ sent_ok (_hybrid_search env query flt top itc facets s).2.
Proof.
  unfold _vector_search, _hybrid_search, _text_search, call_search, call_generate_embedding,
    raise, mbind, M_bind, mret, M_ret.
  repeat split; repeat (case_match; simplify_eq; simpl in * ); eauto 10.
Qed.

Lemma accessible_groups_run env user_id s :
  exists acc s1, get_user_accessible_groups env user_id s = (inr acc, s1)
                 /\ searches s1 = searches s /\ embed_calls s1 = embed_calls s.
Proof.
  destruct (accessible_groups_returns env user_id s) as [acc Hacc].
  destruct (accessible_groups_frame env user_id s) as [Hse Hem].
  destruct (get_user_accessible_groups env user_id s) as [r s1]. simpl in *. subst r.
  by exists acc, s1.
Qed.

(** The gateway, taken apart: group resolution, then either the early
    return or one of the three modes run with the combined filter, whose
    exception, if any, becomes the error result. *)
Lemma gateway_run env query user_id search_type top itc facets filter_expression s :
  exists acc s1,
    get_user_accessible_groups env user_id s = (inr acc, s1)
    /\ searches s1 = searches s /\ embed_calls s1 = embed_calls s
    /\ ((acc = []
         /\ search_with_permissions env query user_id search_type top itc facets
              filter_expression s = (inr no_accessible_documents, s1))
        \/ (acc <> []
            /\ exists mode,
                 (mode = _vector_search \/ mode = _text_search \/ mode = _hybrid_search)
                 /\ (search_type = "text" -> mode = _text_search)
                 /\ search_with_permissions env query user_id search_type top itc facets
                      filter_expression s
                    = (match (mode env query
                                (combined_filter (generate_security_filter acc) filter_expression)
                                top itc facets s1).1 with
                       | inl e => inr (failed_search e)
                       | inr res => inr res
                       end,
                       (mode env query
                          (combined_filter (generate_security_filter acc) filter_expression)
                          top itc facets s1).2))).
Proof.
  destruct (accessible_groups_run env user_id s) as (acc & s1 & Hacc & Hse & Hem).
  exists acc, s1. split; [exact Hacc|]. split; [exact Hse|]. split; [exact Hem|].
  unfold search_with_permissions.
  destruct acc as [|g gs].
  - left. split; [done|]. apply try_except_inr. by rewrite (bind_inr _ _ _ _ _ Hacc).
  - right. split; [done|].
    unfold try_except. rewrite (bind_inr _ _ _ _ _ Hacc).
    fold (combined_filter (generate_security_filter (g :: gs)) filter_expression).
    destruct (String.eqb_spec search_type "vector") as [Hv|Hv].
    + exists _vector_search. split; [auto|]. split; [by intros ->|].
      by destruct (_vector_search _ _ _ _ _ _ _) as [[e|res] s2].
    + destruct (String.eqb_spec search_type "text") as [Ht|Ht].
      * exists _text_search. split; [auto|]. split; [done|].
        by destruct (_text_search _ _ _ _ _ _ _) as [[e|res] s2].
      * exists _hybrid_search. split; [auto|]. split; [done|].
        by destruct (_hybrid_search _ _ _ _ _ _ _) as [[e|res] s2].
Qed.

(** X21.  A search sends the index at most one query, and a query it
    sends always carries the security filter built from the user's
    non-empty accessible groups: alone, or as the first operand of a
    conjunction with the caller's filter.  The index is never queried
    without it, in any mode and whatever the caller passes. *)
Theorem gateway_queries_carry_the_security_filter
    (env : Env) (query user_id search_type : string) (top : Z)
    (include_total_count : bool) (facets : option (list string))
    (filter_expression : option string) (s : State) :
  let s' := (search_with_permissions env query user_id search_type top include_total_count
               facets filter_expression s).2 in
  searches s' = searches s
  \/ exists rq accessible,
       searches s' = searches s ++ [rq]
       /\ (get_user_accessible_groups env user_id s).1 = inr accessible
       /\ accessible <> []
       /\ World.top rq = top
       /\ (filter rq = generate_security_filter accessible
           \/ exists fe, filter_expression = Some fe /\ fe <> ""
                /\ filter rq = "(" +:+ generate_security_filter accessible
                                +:+ ") and (" +:+ fe +:+ ")").
Proof.
  intros s'. subst s'.
  destruct (gateway_run env query user_id search_type top include_total_count facets
              filter_expression s)
    as (acc & s1 & Hacc & Hse & Hem & [[-> Hrun]|(Hne & mode & Hmode & _ & Hrun)]).
  - left. by rewrite Hrun.
  - rewrite Hrun. cbn [snd].
    set (flt := combined_filter (generate_security_filter acc) filter_expression).
    destruct (modes_traffic env query flt top include_total_count facets s1)
      as ([Hv _] & ([Ht _] & _) & [Hh _]).
    assert (Hlog : searches (mode env query flt top include_total_count facets s1).2
                   = searches s1
                   \/ exists rq, searches (mode env query flt top include_total_count facets s1).2
                                 = searches s1 ++ [rq]
                                 /\ filter rq = flt /\ World.top rq = top)
      by (destruct Hmode as [->|[->| ->]]; assumption).
    destruct Hlog as [Hlog|(rq & Hlog & Hflt & Htop)]; [left; congruence|].
    right. exists rq, acc. rewrite Hlog, Hse, Hacc. repeat split; try done.
    rewrite Hflt. unfold flt, combined_filter.
    destruct filter_expression as [fe|]; [|by left].
    destruct (String.eqb_spec fe ""); [by left|]. right. by exists fe.
Qed.

(** What a mode returns carries the processed hits: no error, no message,
    every score None, and coroutine objects as count and facets. *)
Lemma processed_results_facts (page : SearchPage) :
  length (results (_process_search_results page)) = length (hits page)
  /\ map r_id (results (_process_search_results page))
     = map (fun h => hit_fields h !! "id") (hits page)
  /\ Forall (fun i => r_search_score i = None) (results (_process_search_results page))
  /\ count (_process_search_results page) = CountCoroutine
  /\ result_facets (_process_search_results page) = FacetsCoroutine
  /\ message (_process_search_results page) = None
  /\ error (_process_search_results page) = None.
Proof.
  unfold _process_search_results. simpl. rewrite length_map, map_map. simpl.
  repeat split. induction (hits page) as [|h hs IH]; simpl; by constructor.
Qed.

Lemma mode_returns_processed_results env search_type query flt top itc facets s r :
  (mode_of search_type env query flt top itc facets s).1 = inr r ->
  exists page, r = _process_search_results page.
Proof.
  unfold mode_of, _vector_search, _hybrid_search, _text_search, call_search,
    call_generate_embedding, raise, mbind, M_bind, mret, M_ret.
  repeat (case_match; simplify_eq; simpl in * ); intros; simplify_eq; by eexists.
Qed.

(** The gateway with a non-empty list of accessible groups: the mode for
    the search type, run with the combined filter; what it raises becomes
    the error result. *)
Lemma gateway_by_mode env query user_id search_type top itc facets filter_expression s acc s1 :
  get_user_accessible_groups env user_id s = (inr acc, s1) ->
  acc <> [] ->
  search_with_permissions env query user_id search_type top itc facets filter_expression s
  = (match (mode_of search_type env query
              (combined_filter (generate_security_filter acc) filter_expression)
              top itc facets s1).1 with
     | inl e => inr (failed_search e)
     | inr res => inr res
     end,
     (mode_of search_type env query
        (combined_filter (generate_security_filter acc) filter_expression)
        top itc facets s1).2).
Proof.
  intros Hacc Hne. unfold search_with_permissions, try_except.
  rewrite (bind_inr _ _ _ _ _ Hacc). destruct acc as [|g gs]; [done|].
  fold (combined_filter (generate_security_filter (g :: gs)) filter_expression).
  unfold mode_of.
  destruct (String.eqb search_type "vector"); [|destruct (String.eqb search_type "text")].
  - by destruct (_vector_search _ _ _ _ _ _ _) as [[e|res] s2].
  - by destruct (_text_search _ _ _ _ _ _ _) as [[e|res] s2].
  - by destruct (_hybrid_search _ _ _ _ _ _ _) as [[e|res] s2].
Qed.

(** X22.  A search never raises.  With accessible groups, the exception
    that ends the chosen mode comes back as a result with no hits, count
    0, no facets and, as error, the text of that very exception: the one
    the embedding call raised (vector and hybrid modes), or the one the
    index raised for the text query (text mode).  A result without such
    an exception carries no error. *)
Theorem gateway_turns_exceptions_into_empty_results
    (env : Env) (query user_id search_type : string) (top : Z)
    (include_total_count : bool) (facets : option (list string))
    (filter_expression : option string) (s : State) :
  exists acc res,
    (get_user_accessible_groups env user_id s).1 = inr acc
    /\ (search_with_permissions env query user_id search_type top include_total_count
          facets filter_expression s).1 = inr res
    /\ match acc with
       | [] => res = no_accessible_documents
       | _ =>
         let flt := combined_filter (generate_security_filter acc) filter_expression in
         let inner := (mode_of search_type env query flt top include_total_count facets
                         (get_user_accessible_groups env user_id s).2).1 in
         match inner with
         | inl e => res = failed_search e
         | inr r => res = r /\ error r = None
         end
         /\ (forall e, search_type <> "text" ->
               generate_embedding env (length (embed_calls s)) query = inl e ->
               res = failed_search e)
         /\ (forall e, search_type = "text" ->
               search env (length (searches s))
                 (text_request query flt top include_total_count facets) = inl e ->
               res = failed_search e)
       end.
Proof.
  destruct (accessible_groups_run env user_id s) as (acc & s1 & Hacc & Hse & Hem).
  rewrite Hacc. cbn [fst snd].
  destruct acc as [|g gs].
  - exists [], no_accessible_documents. split; [done|]. split; [|done].
    unfold search_with_permissions, try_except. by rewrite (bind_inr _ _ _ _ _ Hacc).
  - rewrite (gateway_by_mode _ _ _ _ _ _ _ _ _ _ _ Hacc) by done. cbn [fst].
    set (flt := combined_filter (generate_security_filter (g :: gs)) filter_expression).
    destruct ((mode_of search_type env query flt top include_total_count facets s1).1)
      as [e|r] eqn:Hm.
    + exists (g :: gs), (failed_search e). split; [done|]. split; [done|].
      cbv zeta. fold flt. rewrite Hm. split; [done|]. split.
      * intros e' Hnt Hemb. rewrite <- Hem in Hemb.
        destruct (hybrid_raises_when_embedding_raises env query flt top
                    include_total_count facets s1 e' Hemb) as [Hh Hv].
        unfold mode_of in Hm.
        destruct (String.eqb search_type "vector"); [congruence|].
        destruct (String.eqb_spec search_type "text"); [done|congruence].
      * intros e' -> Hidx. rewrite <- Hse in Hidx.
        destruct (text_search_run env query flt top include_total_count facets s1)
          as (s' & Hrun & _).
        unfold mode_of in Hm. simpl in Hm. rewrite Hrun, Hidx in Hm. simpl in Hm. congruence.
    + exists (g :: gs), r. split; [done|]. split; [done|].
      destruct (mode_returns_processed_results _ _ _ _ _ _ _ _ _ Hm) as (page & ->).
      cbv zeta. fold flt. rewrite Hm. split; [done|]. split.
      * intros e' Hnt Hemb. rewrite <- Hem in Hemb.
        destruct (hybrid_raises_when_embedding_raises env query flt top
                    include_total_count facets s1 e' Hemb) as [Hh Hv].
        unfold mode_of in Hm.
        destruct (String.eqb search_type "vector"); [congruence|].
        destruct (String.eqb_spec search_type "text"); [done|congruence].
      * intros e' -> Hidx. rewrite <- Hse in Hidx.
        destruct (text_search_run env query flt top include_total_count facets s1)
          as (s' & Hrun & _).
        unfold mode_of in Hm. simpl in Hm. rewrite Hrun, Hidx in Hm. simpl in Hm. congruence.
Qed.

(** X23.  A search asks for at most one embedding, of the query text, and
    in text mode for none: text search works with the embedding service
    down or absent. *)
Theorem gateway_text_mode_needs_no_embedding
    (env : Env) (query user_id search_type : string) (top : Z)
    (include_total_count : bool) (facets : option (list string))
    (filter_expression : option string) (s : State) :
  let s' := (search_with_permissions env query user_id search_type top include_total_count
               facets filter_expression s).2 in
  (embed_calls s' = embed_calls s \/ embed_calls s' = embed_calls s ++ [query])
  /\ embed_calls (search_with_permissions env query user_id "text" top include_total_count
                    facets filter_expression s).2 = embed_calls s.
Proof.
  split.
  - destruct (gateway_run env query user_id search_type top include_total_count facets
                filter_expression s)
      as (acc & s1 & Hacc & Hse & Hem & [[-> Hrun]|(Hne & mode & Hmode & _ & Hrun)]).
    + left. by rewrite Hrun.
    + rewrite Hrun. cbn [snd]. rewrite <- Hem.
      set (flt := combined_filter (generate_security_filter acc) filter_expression).
      destruct (modes_traffic env query flt top include_total_count facets s1)
        as ([_ Hv] & ([_ Ht] & _) & [_ Hh]).
      destruct Hmode as [->|[->| ->]]; assumption.
  - destruct (gateway_run env query user_id "text" top include_total_count facets
                filter_expression s)
      as (acc & s1 & Hacc & Hse & Hem & [[-> Hrun]|(Hne & mode & _ & Htext & Hrun)]).
    + by rewrite Hrun.
    + rewrite Hrun, (Htext eq_refl). cbn [snd]. rewrite <- Hem.
      set (flt := combined_filter (generate_security_filter acc) filter_expression).
      by destruct (modes_traffic env query flt top include_total_count facets s1)
        as (_ & (_ & Ht) & _).
Qed.

(** X24.  [_process_search_results] returns one result per hit, in
    order, each with the hit's stored fields and with no score; under
    "count" and "facets" it returns the coroutine objects left by the
    calls it does not await, never a number and a dict.  So a search
    through the gateway never reports a count other than 0: its result is
    either empty with count 0, or it carries the processed hits and a
    coroutine object as count. *)
Theorem processed_results_count :
  (forall page : SearchPage,
     length (results (_process_search_results page)) = length (hits page)
     /\ map r_id (results (_process_search_results page))
        = map (fun h => hit_fields h !! "id") (hits page)
     /\ Forall (fun i => r_search_score i = None) (results (_process_search_results page))
     /\ count (_process_search_results page) = CountCoroutine
     /\ result_facets (_process_search_results page) = FacetsCoroutine)
  /\ (forall (env : Env) (query user_id search_type : string) (top : Z)
             (include_total_count : bool) (facets : option (list string))
             (filter_expression : option string) (s : State) (res : SearchResult),
        (search_with_permissions env query user_id search_type top include_total_count
           facets filter_expression s).1 = inr res ->
        (results res = [] /\ count res = 0%Z /\ result_facets res = Facets ∅)
        \/ (exists page, res = _process_search_results page
                         /\ count res = CountCoroutine /\ error res = None)).
Proof.
  split.
  - intros page. destruct (processed_results_facts page) as (H1 & H2 & H3 & H4 & H5 & _).
    done.
  - intros env query user_id search_type top itc facets fe s res.
    destruct (accessible_groups_run env user_id s) as (acc & s1 & Hacc & _).
    destruct acc as [|g gs].
    + unfold search_with_permissions, try_except. rewrite (bind_inr _ _ _ _ _ Hacc).
      simpl. intros [= <-]. by left.
    + rewrite (gateway_by_mode _ _ _ _ _ _ _ _ _ _ _ Hacc) by done. cbn [fst].
      destruct ((mode_of search_type env query _ top itc facets s1).1) as [e|r] eqn:Hm.
      * intros [= <-]. by left.
      * intros [= <-]. right.
        destruct (mode_returns_processed_results _ _ _ _ _ _ _ _ _ Hm) as (page & ->).
        by exists page.
Qed.



End SearchMore.

(** ** The index publisher: batches and counts *)

Module UploadMore.

Import World SearchUploader UploadObs UploadMoreObs UploadProps.
Local Open Scope list_scope.

(** The batches of a run are the slices of the publishable documents. *)
Lemma upload_documents_sent api chunks embeddings :
  sent (upload_documents api chunks embeddings).2
  = map (fun i => take batch_size
                    (drop i (omap (publishable (embedding_map embeddings)) chunks)))
        (batch_starts (length (omap (publishable (embedding_map embeddings)) chunks))).
Proof.
  unfold upload_documents.
  destruct chunks as [|c cs]; [reflexivity|].
  destruct embeddings as [|e es].
  { change (embedding_map []) with (∅ : gmap string EmbeddingResult).
    by rewrite nothing_publishable. }
  rewrite prepare_spec.
  set (docs := omap (publishable (embedding_map (e :: es))) (c :: cs)).
  destruct docs as [|d ds] eqn:Hdocs; [reflexivity|].
  destruct (upload_batches_spec api (d :: ds) (batch_starts (length (d :: ds))) no_report)
    as [Hs _].
  fold no_report.
  destruct (upload_batches api (d :: ds) _ no_report) as [rep tr]. exact Hs.
Qed.

Lemma batch_start_in_range n i : i ∈ batch_starts n -> i < n.
Proof.
  unfold batch_starts, batch_size. intros Hi.
  apply list_elem_of_In, in_map_iff in Hi as (k & <- & Hk).
  apply in_seq in Hk.
  pose proof (Nat.div_mod_eq (n + 100 - 1) 100) as Hd.
  pose proof (Nat.mod_upper_bound (n + 100 - 1) 100) as Hm.
  nia.
Qed.


Lemma tally_counts rs :
  r_success (tally rs).1 + r_failed (tally rs).1 = length rs
  /\ length (r_errors (tally rs).1) = r_failed (tally rs).1
  /\ r_success (tally rs).1 = length (List.filter succeeded rs).
Proof.
  induction rs as [|r rs (IH1 & IH2 & IH3)]; [done|].
  simpl. destruct (tally rs) as [rep lg]. simpl in *.
  destruct (succeeded r); simpl; lia.
Qed.

(** X28.  The report of one batch: when the upload raises, every document
    of the batch counts as failed and there is one error line naming the
    batch; when it answers, success and failed add up to the number of
    statuses in the answer, success counts the statuses that succeeded,
    and there is one error line per failed document. *)
Theorem batch_report_accounts_for_every_status
    (api : UploadApi) (documents : list Document) (batch_number : nat) :
  match api batch_number documents with
  | inl e =>
    (_upload_batch api documents batch_number).1
    = {| r_success := 0; r_failed := length documents;
         r_errors := ["Batch " +:+ pretty batch_number +:+ ": " +:+ str e] |}
  | inr rs =>
    r_success (_upload_batch api documents batch_number).1
    + r_failed (_upload_batch api documents batch_number).1 = length rs
    /\ r_success (_upload_batch api documents batch_number).1
       = length (List.filter succeeded rs)
    /\ length (r_errors (_upload_batch api documents batch_number).1)
       = r_failed (_upload_batch api documents batch_number).1
  end.
Proof.
  unfold _upload_batch. destruct (api batch_number documents) as [e|rs]; [reflexivity|].
  destruct (tally_counts rs) as (H1 & H2 & H3).
  destruct (tally rs) as [rep lg]. simpl in *. done.
Qed.

Lemma upload_batch_total api docs n :
  one_status_per_document api ->
  r_success (_upload_batch api docs n).1 + r_failed (_upload_batch api docs n).1
  = length docs.
Proof.
  intros Hw. specialize (Hw n docs). unfold _upload_batch.
  destruct (api n docs) as [e|rs]; [reflexivity|].
  destruct (tally_counts rs) as (H1 & _). destruct (tally rs) as [rep lg]. simpl in *. lia.
Qed.

Lemma upload_batches_total api docs starts :
  one_status_per_document api ->
  forall acc,
    r_success (upload_batches api docs starts acc).1
    + r_failed (upload_batches api docs starts acc).1
    = r_success acc + r_failed acc
      + length (concat (map (fun i => take batch_size (drop i docs)) starts)).
Proof.
  intros Hw. induction starts as [|i starts IH]; intros acc; [simpl; lia|].
  simpl.
  pose proof (upload_batch_total api (take batch_size (drop i docs)) (i / batch_size + 1) Hw)
    as Hb.
  destruct (_upload_batch api _ _) as [b lg].
  match goal with |- context [upload_batches api docs starts ?a] =>
    specialize (IH a); destruct (upload_batches api docs starts a) as [final tr] end.
  simpl in *. rewrite length_app. lia.
Qed.

Lemma publishable_or_dropped m chunks :
  length (omap (publishable m) chunks) + length (List.filter (unembedded m) chunks)
  = length chunks.
Proof.
  induction chunks as [|c cs IH]; [reflexivity|].
  change (omap (publishable m) (c :: cs))
    with (match publishable m c with
          | Some y => y :: omap (publishable m) cs
          | None => omap (publishable m) cs
          end).
  change (List.filter (unembedded m) (c :: cs))
    with (if unembedded m c then c :: List.filter (unembedded m) cs
          else List.filter (unembedded m) cs).
  unfold unembedded at 1. destruct (publishable m c); simpl length; lia.
Qed.

(** X29.  With an index that answers each upload with one status per
    document or raises, and at least one chunk embedded, every chunk is
    accounted for once: success and failed of the report add up to the
    number of documents sent, and together with the chunks dropped for
    want of an embedding to the number of chunks. *)
Theorem report_accounts_for_every_document
    (api : UploadApi) (chunks : list DocumentChunk) (embeddings : list EmbeddingResult) :
  one_status_per_document api ->
  omap (publishable (embedding_map embeddings)) chunks <> [] ->
  let rep := (upload_documents api chunks embeddings).1 in
  r_success rep + r_failed rep
  = length (omap (publishable (embedding_map embeddings)) chunks)
  /\ r_success rep + r_failed rep
     + length (List.filter (unembedded (embedding_map embeddings)) chunks)
     = length chunks.
Proof.
  intros Hw Hne rep.
  assert (Hrep : r_success rep + r_failed rep
                 = length (omap (publishable (embedding_map embeddings)) chunks)).
  { subst rep. unfold upload_documents.
    destruct chunks as [|c cs]; [done|].
    destruct embeddings as [|e es].
    { exfalso. apply Hne. change (embedding_map []) with (∅ : gmap string EmbeddingResult).
      apply nothing_publishable. }
    rewrite prepare_spec.
    set (docs := omap (publishable (embedding_map (e :: es))) (c :: cs)) in *.
    destruct docs as [|d ds] eqn:Hdocs; [done|].
    fold no_report.
    pose proof (upload_batches_total api (d :: ds) (batch_starts (length (d :: ds))) Hw
                  no_report) as Ht.
    destruct (upload_batches api (d :: ds) _ no_report) as [r tr].
    cbn [fst] in *. rewrite Ht, concat_batches. reflexivity. }
  split; [exact Hrep|]. rewrite Hrep. apply publishable_or_dropped.
Qed.

(** Two chunks, one embedded; the second batch number is never reached. *)
Lemma report_accounts_witness :
  let rep := (upload_documents flaky [chunk_1; chunk_2]
                [embedded "report_0"; not_embedded "report_1"]).1 in
  r_success rep + r_failed rep
  = length (omap (publishable (embedding_map [embedded "report_0"; not_embedded "report_1"]))
                 [chunk_1; chunk_2])
  /\ r_success rep + r_failed rep
     + length (List.filter
                 (unembedded (embedding_map [embedded "report_0"; not_embedded "report_1"]))
                 [chunk_1; chunk_2])
     = length [chunk_1; chunk_2].
Proof.
  apply (report_accounts_for_every_document flaky [chunk_1; chunk_2]
           [embedded "report_0"; not_embedded "report_1"]).
  - intros n docs. unfold flaky. destruct (n =? 2)%nat; [exact I|]. apply length_map.
  - vm_compute. discriminate.
Defined.

Lemma embedding_map_snoc es e :
  embedding_map (es ++ [e]) = <[chunk_id e := e]> (embedding_map es).
Proof. unfold embedding_map. by rewrite foldl_app. Qed.

(** X30.  When several outcomes carry the same id, the publisher uses the
    last of them: the map from ids to outcomes holds, under each id, the
    last outcome of the list with that id, and nothing under an id no
    outcome has. *)
Theorem last_outcome_per_id_wins (embeddings : list EmbeddingResult) (i : string) :
  embedding_map embeddings !! i
  = last (List.filter (fun r => String.eqb (chunk_id r) i) embeddings).
Proof.
  induction embeddings as [|e es IH] using rev_ind; [apply lookup_empty|].
  rewrite embedding_map_snoc, List.filter_app. simpl.
  destruct (String.eqb_spec (chunk_id e) i) as [->|Hne].
  - rewrite lookup_insert_eq. by rewrite last_snoc.
  - rewrite lookup_insert_ne by done. by rewrite app_nil_r.
Qed.

End UploadMore.
